(** * Reloaderoo: the MCP proxy (mcp-proxy.ts, class [MCPProxy])

    A shallow embedding of the proxy engine: the fields of [MCPProxy] are a
    record, every [async] method is a program of a small free monad whose
    nodes are the reads and writes of [this], the calls of the logger, the
    [new] of SDK objects and the awaited SDK promises.  A sequential
    interpreter runs one method against an environment that settles each
    awaited promise; a task pool interleaves several invocations at their
    awaits, as the Node event loop does. *)

From Stdlib Require Import Ascii String List Bool Arith ZArith Lia.
Import ListNotations.
Open Scope string_scope.

Set Implicit Arguments.

(** ** SDK values *)

(** A tool descriptor ([Tool] of the SDK): the name and the rest of the
    descriptor, kept as text. *)
Record Tool : Type := mkTool {
  name : string;
  descriptor : string
}.

(** [ErrorCode] of the SDK (JSON-RPC codes). *)
Module ErrorCode.
Definition ConnectionClosed : Z := (-32000)%Z.
Definition RequestTimeout : Z := (-32001)%Z.
Definition ParseError : Z := (-32700)%Z.
Definition InvalidRequest : Z := (-32600)%Z.
Definition MethodNotFound : Z := (-32601)%Z.
Definition InvalidParams : Z := (-32602)%Z.
Definition InternalError : Z := (-32603)%Z.
End ErrorCode.

(** What a [catch (error)] clause can receive. *)
Inductive JsError : Type :=
| McpError (code : Z) (message : string)   (* instanceof McpError (and Error) *)
| Error (message : string)                 (* any other instanceof Error *)
| Thrown (value : string).                 (* a thrown value that is no Error *)

(** JSON values, as the arguments of a tool call arrive. *)
Inductive JsVal : Type :=
| JUndefined
| JNull
| JBool (b : bool)
| JNum (z : Z)
| JStr (s : string)
| JObj (fields : JsFields)
with JsFields : Type :=
| FNil
| FCons (key : string) (value : JsVal) (rest : JsFields).

Fixpoint lookup_field (k : string) (fields : JsFields) : JsVal :=
  match fields with
  | FNil => JUndefined
  | FCons k' v rest => if String.eqb k k' then v else lookup_field k rest
  end.

(** [v?.k]: [undefined] on [undefined] and [null], the property otherwise
    (a primitive has no own property [k]). *)
Definition opt_get (v : JsVal) (k : string) : JsVal :=
  match v with
  | JObj fields => lookup_field k fields
  | _ => JUndefined
  end.

Definition truthy (v : JsVal) : bool :=
  match v with
  | JUndefined | JNull => false
  | JBool b => b
  | JNum z => negb (Z.eqb z 0)
  | JStr s => negb (String.eqb s "")
  | JObj _ => true
  end.

(** [a || b]. *)
Definition js_or (a b : JsVal) : JsVal := if truthy a then a else b.

(** The three list-changed notifications, named as in
    [MCP_PROTOCOL.NOTIFICATIONS]. *)
Inductive Notification : Type :=
| TOOLS_LIST_CHANGED
| PROMPTS_LIST_CHANGED
| RESOURCES_LIST_CHANGED.

(** The result of a tool call ([CallToolResult]): text items and the optional
    [isError] mark. *)
Record CallToolResult : Type := mkResult {
  content : list (string * string);      (* (type, text) *)
  isError : option bool
}.

(** ** Configuration *)

(** Modelled from the spec: the [ProxyConfig] type (./types.js), of which the
    class reads [childCommand], [childArgs] and [environment]; the other
    fields are those of the configuration surface. *)
Record ProxyConfig : Type := mkConfig {
  childCommand : string;
  childArgs : list string;
  environment : list (string * string);
  workingDirectory : string;
  autoRestart : bool;
  maxRestarts : nat;
  restartDelay : N;       (* ms *)
  restartTimeout : N      (* ms *)
}.

(** Modelled from the spec: the constant [PROXY_TOOLS.RESTART_SERVER]
    (./constants.js), the name of the synthetic tool. *)
Definition RESTART_SERVER : string := "restart_server".

(** ** The proxy object *)

(** Modelled from the spec: [ToolRequestHandler] (./handlers/index.js).  The
    handler keeps the child client and the tool list it was last given
    ([updateChildClient], [updateChildTools]); the proxy never mutates a tool
    array in place, it assigns a new one, so the handler's list is the value
    it held at the last update. *)
Record ToolRequestHandler : Type := mkToolHandler {
  th_childClient : option nat;
  th_childTools : list Tool
}.

(** The fields of [MCPProxy].  A [Client] or a transport is the number it got
    when it was constructed; [null] is [None].  The four other handlers only
    hold the child client. *)
Record MCPProxy : Type := mkProxy {
  childClient : option nat;
  childTransport : option nat;
  isShuttingDown : bool;
  restartInProgress : bool;
  childTools : list Tool;
  toolHandler : ToolRequestHandler;
  resourceHandler : option nat;
  promptHandler : option nat;
  completionHandler : option nat;
  coreHandler : option nat
}.

Definition set_childClient (v : option nat) (p : MCPProxy) : MCPProxy :=
  mkProxy v (childTransport p) (isShuttingDown p) (restartInProgress p)
          (childTools p) (toolHandler p) (resourceHandler p) (promptHandler p)
          (completionHandler p) (coreHandler p).

Definition set_childTransport (v : option nat) (p : MCPProxy) : MCPProxy :=
  mkProxy (childClient p) v (isShuttingDown p) (restartInProgress p)
          (childTools p) (toolHandler p) (resourceHandler p) (promptHandler p)
          (completionHandler p) (coreHandler p).

Definition set_isShuttingDown (v : bool) (p : MCPProxy) : MCPProxy :=
  mkProxy (childClient p) (childTransport p) v (restartInProgress p)
          (childTools p) (toolHandler p) (resourceHandler p) (promptHandler p)
          (completionHandler p) (coreHandler p).

Definition set_restartInProgress (v : bool) (p : MCPProxy) : MCPProxy :=
  mkProxy (childClient p) (childTransport p) (isShuttingDown p) v
          (childTools p) (toolHandler p) (resourceHandler p) (promptHandler p)
          (completionHandler p) (coreHandler p).

Definition set_childTools (v : list Tool) (p : MCPProxy) : MCPProxy :=
  mkProxy (childClient p) (childTransport p) (isShuttingDown p)
          (restartInProgress p) v (toolHandler p) (resourceHandler p)
          (promptHandler p) (completionHandler p) (coreHandler p).

(** The state [updateHandlersWithChildClient] leaves: every handler is given
    the current child client, the tool handler the current tool list too. *)
Definition handlers_updated (p : MCPProxy) : MCPProxy :=
  mkProxy (childClient p) (childTransport p) (isShuttingDown p)
          (restartInProgress p) (childTools p)
          (mkToolHandler (childClient p) (childTools p))
          (childClient p) (childClient p) (childClient p) (childClient p).

(** The object the constructor leaves (field initialisers, then the handlers
    built from [this.childClient] and [this.childTools]). *)
Definition constructed : MCPProxy :=
  mkProxy None None false false [] (mkToolHandler None []) None None None None.

(** ** Effects *)

Inductive LogLevel : Type := debug | info | warn | error.

(** The second argument of a logger call. *)
Inductive LogData : Type :=
| DNone
| DForce (force : JsVal)
| DChild (command : string) (args : list string)
| DError (e : JsError)
| DMessage (errorMessage : string)
| DTools (toolCount : nat) (toolNames : list string)
| DProbe (hasStderrStream hasProcess : bool).

Record LogEntry : Type := mkLog {
  level : LogLevel;
  text : string;
  data : LogData;
  source : option string
}.

(** The promises the class awaits. *)
Inductive Call : Type :=
| ClientClose (c : nat)                 (* childClient.close() *)
| TransportClose (t : nat)              (* childTransport.close() *)
| ClientConnect (c t : nat)             (* childClient.connect(childTransport) *)
| ListTools (c : nat)                   (* childClient.listTools() *)
| ServerNotification (n : Notification) (* server.notification({method}) *)
| ServerConnect                         (* server.connect(transport) *)
| ServerClose.                          (* server.close() *)

(** How a promise settles.  A fulfilled value is an object whose only field
    the class ever reads is the optional [tools]. *)
Inductive Outcome : Type :=
| Resolved (tools : option (list Tool))
| Rejected (e : JsError).

(** The SDK objects the class constructs with [new]. *)
Inductive ObjKind : Type :=
| StdioClientTransport (command : string) (args : list string)
                       (env : list (string * string))
| Client
| StdioServerTransport.

(** What the duck-typed probe of a connected transport finds (the chain of
    [if]s on [_stderrStream] and [_process] in [startChildServer]). *)
Inductive StderrAccess : Type :=
| HasStderrStream
| HasProcessStderr
| HasProcessOnly       (* [_process] whose [stderr] is null: [.on] throws *)
| NoAccess.

(** Programs: the code between two awaits is a sequence of [Get], [Put],
    [Log] and [New]; [Await] suspends on a promise. *)
Inductive M (A : Type) : Type :=
| Ret (a : A)
| Throw (e : JsError)
| Get (k : MCPProxy -> M A)
| Put (p : MCPProxy) (k : M A)
| Log (l : LogEntry) (k : M A)
| New (o : ObjKind) (k : nat -> M A)
| Await (c : Call) (k : Outcome -> M A).

Arguments Ret {A} a.
Arguments Throw {A} e.
Arguments Get {A} k.
Arguments Put {A} p k.
Arguments Log {A} l k.
Arguments New {A} o k.
Arguments Await {A} c k.

Fixpoint bind {A B : Type} (m : M A) (f : A -> M B) : M B :=
  match m with
  | Ret a => f a
  | Throw e => Throw e
  | Get k => Get (fun p => bind (k p) f)
  | Put p k => Put p (bind k f)
  | Log l k => Log l (bind k f)
  | New o k => New o (fun n => bind (k n) f)
  | Await c k => Await c (fun o => bind (k o) f)
  end.

(** [try { m } catch (error) { h error }]. *)
Fixpoint try_catch {A : Type} (m : M A) (h : JsError -> M A) : M A :=
  match m with
  | Ret a => Ret a
  | Throw e => h e
  | Get k => Get (fun p => try_catch (k p) h)
  | Put p k => Put p (try_catch k h)
  | Log l k => Log l (try_catch k h)
  | New o k => New o (fun n => try_catch (k n) h)
  | Await c k => Await c (fun o => try_catch (k o) h)
  end.

Declare Scope prog_scope.
Delimit Scope prog_scope with prog.
Notation "x <- m ;; k" := (bind m (fun x => k))
  (at level 61, m at next level, right associativity) : prog_scope.
Notation "m ;; k" := (bind m (fun _ => k))
  (at level 61, right associativity) : prog_scope.
Notation "'try' m 'catch' h" := (try_catch m h)
  (at level 60, m at level 200, h at level 9) : prog_scope.
Open Scope prog_scope.

Definition get : M MCPProxy := Get (fun p => Ret p).
Definition modify (f : MCPProxy -> MCPProxy) : M unit :=
  Get (fun p => Put (f p) (Ret tt)).
Definition logger (lv : LogLevel) (msg : string) (d : LogData) : M unit :=
  Log (mkLog lv msg d None) (Ret tt).
Definition logger_from (src : string) (lv : LogLevel) (msg : string)
                       (d : LogData) : M unit :=
  Log (mkLog lv msg d (Some src)) (Ret tt).
Definition new (o : ObjKind) : M nat := New o (fun n => Ret n).
Definition await (c : Call) : M (option (list Tool)) :=
  Await c (fun o => match o with
                    | Resolved v => Ret v
                    | Rejected e => Throw e
                    end).

(** ** The methods of [MCPProxy] *)

Section Methods.

Variable config : ProxyConfig.
(** What the probe of transport [t] finds once it is connected. *)
Variable stderrAccess : nat -> StderrAccess.

(** [updateHandlersWithChildClient()]. *)
Definition updateHandlersWithChildClient : M unit :=
  modify handlers_updated.

(** [stopChildServer()]: both closes are wrapped in their own [try]. *)
Definition stopChildServer : M unit :=
  p <- get ;;
  match childClient p with
  | Some c =>
      (try (await (ClientClose c) ;; Ret tt)
       catch (fun e => logger debug "Error closing child client" (DError e))) ;;
      modify (set_childClient None) ;;
      modify (set_childTools []) ;;
      updateHandlersWithChildClient
  | None => Ret tt
  end ;;
  p <- get ;;
  match childTransport p with
  | Some t =>
      (try (await (TransportClose t) ;; Ret tt)
       catch (fun e => logger debug "Error closing child transport" (DError e))) ;;
      modify (set_childTransport None)
  | None => Ret tt
  end ;;
  modify (set_childTools []).

(** [notifyCapabilityChanges()]: one [try] around the three sends. *)
Definition notifyCapabilityChanges : M unit :=
  try (await (ServerNotification TOOLS_LIST_CHANGED) ;;
       await (ServerNotification PROMPTS_LIST_CHANGED) ;;
       await (ServerNotification RESOURCES_LIST_CHANGED) ;;
       logger debug "Sent capability change notifications" DNone)
  catch (fun e => logger debug "Error sending notifications" (DError e)).

(** [toolsResult.tools || []]. *)
Definition tools_or_empty (v : option (list Tool)) : list Tool :=
  match v with
  | Some l => l
  | None => []
  end.

(** [error instanceof McpError && error.code === ErrorCode.MethodNotFound]. *)
Definition is_method_not_found (e : JsError) : bool :=
  match e with
  | McpError code _ => Z.eqb code ErrorCode.MethodNotFound
  | _ => false
  end.

(** [mirrorChildCapabilities()]. *)
Definition mirrorChildCapabilities : M unit :=
  p <- get ;;
  match childClient p with
  | None => Throw (Error "Child client not connected")
  | Some c =>
      try (toolsResult <- await (ListTools c) ;;
           modify (set_childTools (tools_or_empty toolsResult)) ;;
           updateHandlersWithChildClient ;;
           p <- get ;;
           logger debug "Mirrored child capabilities"
                  (DTools (length (childTools p)) (map name (childTools p))) ;;
           p <- get ;;
           if restartInProgress p then
             notifyCapabilityChanges ;;
             modify (set_restartInProgress false)
           else Ret tt)
      catch (fun e =>
           logger error "Failed to mirror child capabilities" (DError e) ;;
           if is_method_not_found e then
             logger warn "Child server does not support tools/list - continuing with empty tool list" DNone ;;
             modify (set_childTools []) ;;
             updateHandlersWithChildClient ;;
             p <- get ;;
             (if restartInProgress p
              then modify (set_restartInProgress false)
              else Ret tt) ;;
             Ret tt
           else Throw e)
  end.

(** The [try] block of [startChildServer] that looks for the child's
    stderr on [this.childTransport]: it registers a listener and logs; a
    [TypeError] of the probe is caught and logged. *)
Definition captureStderr (transport : option nat) : M unit :=
  match transport with
  | None =>
      logger_from "RELOADEROO" debug "Error setting up stderr capture"
        (DError (Error "Cannot read properties of null (reading '_stderrStream')"))
  | Some t =>
      match stderrAccess t with
      | HasStderrStream =>
          logger_from "RELOADEROO" debug
            "Found child stderr stream, setting up capture" DNone
      | HasProcessStderr =>
          logger_from "RELOADEROO" debug
            "Found child process stderr, setting up capture" DNone
      | HasProcessOnly =>
          logger_from "RELOADEROO" debug
            "Found _process property, setting up stderr capture" DNone ;;
          logger_from "RELOADEROO" debug "Error setting up stderr capture"
            (DError (Error "Cannot read properties of null (reading 'on')"))
      | NoAccess =>
          logger_from "RELOADEROO" debug
            "No stderr access available from transport" (DProbe false false)
      end
  end.

(** [startChildServer()].  The transport and the client are read back from
    [this] right after they are assigned, with no await in between. *)
Definition startChildServer : M unit :=
  stopChildServer ;;
  logger info "Starting child MCP server"
         (DChild (childCommand config) (childArgs config)) ;;
  t <- new (StdioClientTransport (childCommand config) (childArgs config)
                                 (environment config)) ;;
  modify (set_childTransport (Some t)) ;;
  c <- new Client ;;
  modify (set_childClient (Some c)) ;;
  await (ClientConnect c t) ;;
  p <- get ;;
  captureStderr (childTransport p) ;;
  mirrorChildCapabilities ;;
  logger info "Connected to child MCP server successfully" DNone.

Definition restart_success : CallToolResult :=
  mkResult [("text", "Child MCP server restarted successfully. New capabilities have been loaded.")]
           None.

Definition restart_failure (errorMessage : string) : CallToolResult :=
  mkResult [("text", "Failed to restart child server: " ++ errorMessage)]
           (Some true).

(** [error instanceof Error ? error.message : 'Unknown error']. *)
Definition error_message (e : JsError) : string :=
  match e with
  | McpError _ m => m
  | Error m => m
  | Thrown _ => "Unknown error"
  end.

(** [handleRestartServer(args)]: the handler of the [restart_server] tool. *)
Definition handleRestartServer (args : JsVal) : M CallToolResult :=
  let force := js_or (opt_get args "force") (JBool false) in
  try (logger info ("Executing " ++ RESTART_SERVER ++ " tool") (DForce force) ;;
       modify (set_restartInProgress true) ;;
       startChildServer ;;
       Ret restart_success)
  catch (fun e =>
       modify (set_restartInProgress false) ;;
       let errorMessage := error_message e in
       logger error "Failed to restart child server" (DMessage errorMessage) ;;
       Ret (restart_failure errorMessage)).

(** [start()]. *)
Definition start : M unit :=
  logger info "Starting Reloaderoo"
         (DChild (childCommand config) (childArgs config)) ;;
  startChildServer ;;
  new StdioServerTransport ;;
  await ServerConnect ;;
  logger info "Reloaderoo started successfully" DNone.

(** [stop()]. *)
Definition stop : M unit :=
  p <- get ;;
  if isShuttingDown p then Ret tt
  else
    modify (set_isShuttingDown true) ;;
    logger info "Stopping Reloaderoo" DNone ;;
    try (stopChildServer ;;
         await ServerClose ;;
         Ret tt)
    catch (fun e => logger error "Error during shutdown" (DError e)).

(** [handleShutdown(signal)]: its last statement is [process.exit(0)],
    after which nothing runs; the program returns the exit code. *)
Definition handleShutdown (signal : string) : M Z :=
  logger info ("Received " ++ signal ++ ", shutting down gracefully") DNone ;;
  stop ;;
  Ret 0%Z.

End Methods.

(** ** Running one method *)

(** The world a method runs in: the proxy object, the number the next
    constructed object gets, how many promises have settled so far, and the
    clock in milliseconds. *)
Record World : Type := mkWorld {
  proxy : MCPProxy;
  heap : nat;
  settled : nat;
  now : N
}.

(** The environment settles the [n]-th awaited promise: with which outcome,
    and after how many milliseconds. *)
Definition Env : Type := nat -> Call -> Outcome * N.

Inductive Event : Type :=
| ELog (l : LogEntry)
| ENew (o : ObjKind) (id : nat)
| ECall (c : Call) (o : Outcome).

Inductive Completion (A : Type) : Type :=
| Returned (a : A)
| Threw (e : JsError).
Arguments Returned {A} a.
Arguments Threw {A} e.

Record Run (A : Type) : Type := mkRun {
  final : World;
  events : list Event;
  completion : Completion A
}.

Definition emit {A : Type} (ev : Event) (r : Run A) : Run A :=
  mkRun (final r) (ev :: events r) (completion r).

Fixpoint run {A : Type} (env : Env) (m : M A) (w : World) : Run A :=
  match m with
  | Ret a => mkRun w [] (Returned a)
  | Throw e => mkRun w [] (Threw e)
  | Get k => run env (k (proxy w)) w
  | Put p k => run env k (mkWorld p (heap w) (settled w) (now w))
  | Log l k => emit (ELog l) (run env k w)
  | New o k =>
      emit (ENew o (heap w))
           (run env (k (heap w)) (mkWorld (proxy w) (S (heap w)) (settled w) (now w)))
  | Await c k =>
      let o := fst (env (settled w) c) in
      let dt := snd (env (settled w) c) in
      emit (ECall c o)
           (run env (k o) (mkWorld (proxy w) (heap w) (S (settled w)) (now w + dt)%N))
  end.

(** What follows a run: the continuation runs from the world the first part
    left, unless the first part threw. *)
Definition and_then {A B : Type} (r : Run A) (f : A -> World -> Run B) : Run B :=
  match completion r with
  | Returned a =>
      let r' := f a (final r) in
      mkRun (final r') (events r ++ events r') (completion r')
  | Threw e => mkRun (final r) (events r) (Threw e)
  end.

Definition or_else {A : Type} (r : Run A) (h : JsError -> World -> Run A) : Run A :=
  match completion r with
  | Returned a => r
  | Threw e =>
      let r' := h e (final r) in
      mkRun (final r') (events r ++ events r') (completion r')
  end.

(** ** Interleaving several invocations *)

(** A task is an invocation that has run up to an await, or to its end. *)
Inductive Task (A : Type) : Type :=
| Finished (c : Completion A)
| Suspended (c : Call) (k : Outcome -> M A).
Arguments Finished {A} c.
Arguments Suspended {A} c k.

Record Segment (A : Type) : Type := mkSegment {
  after : World;
  emitted : list Event;
  task : Task A
}.

Definition emit_segment {A : Type} (ev : Event) (s : Segment A) : Segment A :=
  mkSegment (after s) (ev :: emitted s) (task s).

(** The synchronous code up to the next await on an SDK promise: nothing else
    runs meanwhile.  (An [await] of one of the class's own methods that ends
    without waiting on the SDK only yields to the microtask queue, where no
    new request can start.) *)
Fixpoint advance {A : Type} (m : M A) (w : World) : Segment A :=
  match m with
  | Ret a => mkSegment w [] (Finished (Returned a))
  | Throw e => mkSegment w [] (Finished (Threw e))
  | Get k => advance (k (proxy w)) w
  | Put p k => advance k (mkWorld p (heap w) (settled w) (now w))
  | Log l k => emit_segment (ELog l) (advance k w)
  | New o k =>
      emit_segment (ENew o (heap w))
        (advance (k (heap w)) (mkWorld (proxy w) (S (heap w)) (settled w) (now w)))
  | Await c k => mkSegment w [] (Suspended c k)
  end.

Section Pool.

Variable config : ProxyConfig.
Variable stderrAccess : nat -> StderrAccess.

(** The event loop either receives a [restart_server] call, whose handler
    runs to its first await, or settles the promise a task waits on. *)
Inductive Step : Type :=
| Arrive (args : JsVal)
| Settle (i : nat) (o : Outcome).

Record Pool : Type := mkPool {
  world : World;
  history : list Event;
  tasks : list (Task CallToolResult)
}.

Fixpoint replace_task (i : nat) (t : Task CallToolResult)
                      (l : list (Task CallToolResult)) : list (Task CallToolResult) :=
  match l, i with
  | [], _ => []
  | _ :: rest, O => t :: rest
  | x :: rest, S j => x :: replace_task j t rest
  end.

Definition step (pl : Pool) (s : Step) : Pool :=
  match s with
  | Arrive args =>
      let seg := advance (handleRestartServer config stderrAccess args) (world pl) in
      mkPool (after seg) (history pl ++ emitted seg) (tasks pl ++ [task seg])
  | Settle i o =>
      match nth_error (tasks pl) i with
      | Some (Suspended c k) =>
          let w := world pl in
          let seg := advance (k o)
                       (mkWorld (proxy w) (heap w) (S (settled w)) (now w)) in
          mkPool (after seg) (history pl ++ ECall c o :: emitted seg)
                 (replace_task i (task seg) (tasks pl))
      | _ => pl
      end
  end.

Definition schedule (pl : Pool) (steps : list Step) : Pool :=
  fold_left step steps pl.

(** What the invocations have returned to the client so far. *)
Definition outcomes (pl : Pool) : list (option (Completion CallToolResult)) :=
  map (fun t => match t with
                | Finished c => Some c
                | Suspended _ _ => None
                end) (tasks pl).

End Pool.

(** The world in which the continuation of a settled promise resumes. *)
Definition resumed (w : World) : World :=
  mkWorld (proxy w) (heap w) (S (settled w)) (now w).

(** One invocation on its own: the promises it awaits settle with [os], in
    order, and nothing else runs in between.  The segment holds the world
    and the events so far, and the await at which the invocation stands
    once [os] is used up, or its completion. *)
Fixpoint settle {A : Type} (seg : Segment A) (os : list Outcome) : Segment A :=
  match os with
  | [] => seg
  | o :: rest =>
      match task seg with
      | Suspended c k =>
          let seg' := advance (k o) (resumed (after seg)) in
          settle (mkSegment (after seg')
                            (emitted seg ++ ECall c o :: emitted seg')
                            (task seg'))
                 rest
      | Finished _ => seg
      end
  end.

Definition alone {A : Type} (m : M A) (w : World) (os : list Outcome) : Segment A :=
  settle (advance m w) os.

(** [holds I Q m evs p]: when [m] runs on its own from the proxy [p], after
    the events [evs], then [I] holds of the events so far and of the proxy at
    every await, and [Q] of the completion, the events and the proxy at the
    end.  Objects get any number: nothing here depends on the heap. *)
Fixpoint holds {A : Type} (I : list Event -> MCPProxy -> Prop)
    (Q : Completion A -> list Event -> MCPProxy -> Prop)
    (m : M A) (evs : list Event) (p : MCPProxy) : Prop :=
  match m with
  | Ret a => Q (Returned a) evs p
  | Throw e => Q (Threw e) evs p
  | Get k => holds I Q (k p) evs p
  | Put q k => holds I Q k evs q
  | Log l k => holds I Q k (evs ++ [ELog l])%list p
  | New o k => forall n, holds I Q (k n) (evs ++ [ENew o n])%list p
  | Await c k =>
      I evs p /\ forall o, holds I Q (k o) (evs ++ [ECall c o])%list p
  end.

(** The same of an invocation that has run up to an await or to its end,
    [evs] being the events before those of the segment. *)
Definition segment_holds {A : Type} (I : list Event -> MCPProxy -> Prop)
    (Q : Completion A -> list Event -> MCPProxy -> Prop)
    (evs : list Event) (seg : Segment A) : Prop :=
  match task seg with
  | Finished c => Q c (evs ++ emitted seg)%list (proxy (after seg))
  | Suspended c k =>
      I (evs ++ emitted seg)%list (proxy (after seg))
      /\ forall o, holds I Q (k o) (evs ++ emitted seg ++ [ECall c o])%list
                         (proxy (after seg))
  end.

(** ** What the proxy listens to *)

Inductive Signal : Type := SIGINT | SIGTERM.

Definition signal_name (s : Signal) : string :=
  match s with
  | SIGINT => "SIGINT"
  | SIGTERM => "SIGTERM"
  end.

(** What can happen around the proxy once it runs. *)
Inductive Stimulus : Type :=
| RestartToolCall (args : JsVal)      (* the callback given to the tool handler *)
| ServerError (e : JsError)           (* server.onerror *)
| ProcessSignal (s : Signal)          (* process.on('SIGINT' | 'SIGTERM') *)
| ChildStderr (output : string)       (* 'data' on the child's stderr, trimmed *)
| ChildExit (code : Z).               (* the child process ends on its own *)

Section Listeners.

Variable config : ProxyConfig.
Variable stderrAccess : nat -> StderrAccess.

(** The code of the class that a stimulus sets off.  The registrations of the
    class are those of [setupRequestHandlers] (which hands each request to a
    handler object; only the restart tool comes back to the class, through
    the callback), of [setupErrorHandling] and the stderr listeners of
    [startChildServer].  Nothing is registered on the child's transport or
    client for its end ([onclose], [onerror], 'exit'). *)
Definition listener (s : Stimulus) : option (M unit) :=
  match s with
  | RestartToolCall args =>
      Some (handleRestartServer config stderrAccess args ;; Ret tt)
  | ServerError e => Some (logger error "Proxy server error" (DError e))
  | ProcessSignal sg => Some (handleShutdown (signal_name sg) ;; Ret tt)
  | ChildStderr output =>
      Some (if String.eqb output "" then Ret tt
            else logger_from "CHILD-MCP" info output DNone)
  | ChildExit _ => None
  end.

Definition react (env : Env) (s : Stimulus) (w : World) : Run unit :=
  match listener s with
  | Some m => run env m w
  | None => mkRun w [] (Returned tt)
  end.

End Listeners.

(** ** Listing the tools *)

(** Modelled from the spec: the descriptor of the synthetic tool, "taking an
    optional force boolean argument" (./handlers/index.js builds it). *)
Definition restart_server_tool : Tool :=
  mkTool RESTART_SERVER "optional boolean argument: force".

(** Modelled from the spec: [ToolRequestHandler.handleListTools]
    (./handlers/index.js), which answers [list_tools] "by merging the cached
    tool snapshot with one synthetic restart_server tool descriptor" and does
    not forward the request to the child. *)
Definition handleListTools : M (list Tool) :=
  p <- get ;;
  Ret (th_childTools (toolHandler p) ++ [restart_server_tool])%list.

(** ** Describing runs *)

(** Every promise the program can await is a call in [P]. *)
Inductive issues {A : Type} (P : Call -> Prop) : M A -> Prop :=
| issues_Ret a : issues P (Ret a)
| issues_Throw e : issues P (Throw e)
| issues_Get k : (forall p, issues P (k p)) -> issues P (Get k)
| issues_Put p k : issues P k -> issues P (Put p k)
| issues_Log l k : issues P k -> issues P (Log l k)
| issues_New o k : (forall n, issues P (k n)) -> issues P (New o k)
| issues_Await c k : P c -> (forall o, issues P (k o)) -> issues P (Await c k).

(** An event is no call outside [P]. *)
Definition call_satisfies (P : Call -> Prop) (ev : Event) : Prop :=
  match ev with
  | ECall c _ => P c
  | _ => True
  end.

(** The proxy object [stopChildServer] leaves. *)
Definition stopped (p : MCPProxy) : MCPProxy :=
  let p1 := match childClient p with
            | Some _ => handlers_updated (set_childTools [] (set_childClient None p))
            | None => p
            end in
  let p2 := match childTransport p1 with
            | Some _ => set_childTransport None p1
            | None => p1
            end in
  set_childTools [] p2.

(** The two close calls of [stopChildServer]. *)
Definition is_close (c : Call) : Prop :=
  match c with
  | ClientClose _ | TransportClose _ => True
  | _ => False
  end.

Definition is_log_or_close (ev : Event) : Prop :=
  match ev with
  | ELog _ => True
  | ECall c _ => is_close c
  | ENew _ _ => False
  end.

(** The notifications of a restart, in the order [notifyCapabilityChanges]
    sends them. *)
Definition list_changed : list Notification :=
  [TOOLS_LIST_CHANGED; PROMPTS_LIST_CHANGED; RESOURCES_LIST_CHANGED].

Definition resolved (o : Outcome) : bool :=
  match o with
  | Resolved _ => true
  | Rejected _ => false
  end.

(** The notifications whose send was started, in order. *)
Definition attempted (evs : list Event) : list Notification :=
  flat_map (fun ev => match ev with
                      | ECall (ServerNotification n) _ => [n]
                      | _ => []
                      end) evs.

(** The notifications whose send succeeded, in order. *)
Definition delivered (evs : list Event) : list Notification :=
  flat_map (fun ev => match ev with
                      | ECall (ServerNotification n) (Resolved _) => [n]
                      | _ => []
                      end) evs.

(** The sends found in a trace: none unless [b]; with [b], the first [k] of
    the three notifications were started, in order, and all of them but at
    most the last were delivered. *)
Definition sends (evs : list Event) (b : bool) : Prop :=
  exists k j,
    attempted evs = (if b then firstn k list_changed else [])
    /\ delivered evs = (if b then firstn j list_changed else [])
    /\ (k = j \/ k = S j).

(** The environment fulfils every promise of the calls in [P]. *)
Definition fulfils (env : Env) (P : Call -> Prop) : Prop :=
  forall n c, P c -> resolved (fst (env n c)) = true.

Definition is_notification (c : Call) : Prop :=
  match c with
  | ServerNotification _ => True
  | _ => False
  end.

Definition is_connect (c : Call) : Prop :=
  match c with
  | ClientConnect _ _ => True
  | _ => False
  end.

(** The proxy object a completed mirroring leaves. *)
Definition mirrored (v : option (list Tool)) (p : MCPProxy) : MCPProxy :=
  set_restartInProgress false
    (handlers_updated (set_childTools (tools_or_empty v) p)).

(** The proxy object while the new child is being connected: the old child
    is stopped, the new transport and the new client are in place. *)
Definition connecting (p : MCPProxy) (h : nat) : MCPProxy :=
  set_childClient (Some (S h)) (set_childTransport (Some h) (stopped p)).

(** How an attempt to start the child ends. *)
Inductive StartOutcome : Type :=
| ConnectFailed (e : JsError)          (* spawn or handshake failed *)
| Mirrored (v : option (list Tool))    (* the tool list was fetched *)
| Degraded (e : JsError)               (* the child has no tools/list *)
| MirrorFailed (e : JsError).          (* the tool query failed otherwise *)

Definition start_outcome (connect list_tools : Outcome) : StartOutcome :=
  match connect with
  | Rejected e => ConnectFailed e
  | Resolved _ =>
      match list_tools with
      | Resolved v => Mirrored v
      | Rejected e => if is_method_not_found e then Degraded e else MirrorFailed e
      end
  end.

Definition start_completion (sc : StartOutcome) : Completion unit :=
  match sc with
  | ConnectFailed e | MirrorFailed e => Threw e
  | Mirrored _ | Degraded _ => Returned tt
  end.

Definition start_proxy (sc : StartOutcome) (q : MCPProxy) : MCPProxy :=
  match sc with
  | Mirrored v => mirrored v q
  | Degraded _ => mirrored None q
  | ConnectFailed _ | MirrorFailed _ => q
  end.

(** The notifications a start may send: those of a restart whose tool list
    was fetched. *)
Definition notifies (sc : StartOutcome) (p : MCPProxy) : bool :=
  match sc with
  | Mirrored _ => restartInProgress p
  | _ => false
  end.

(** The first thing the handler logs. *)
Definition restart_log (args : JsVal) : Event :=
  ELog (mkLog info "Executing restart_server tool"
              (DForce (js_or (opt_get args "force") (JBool false))) None).

(** The world in which the handler calls [startChildServer]. *)
Definition restarting (w : World) : World :=
  mkWorld (set_restartInProgress true (proxy w)) (heap w) (settled w) (now w).

(** The restart tool only talks to the child and sends notifications: it
    neither connects nor closes the upstream server. *)
Definition spares_upstream (c : Call) : Prop :=
  match c with
  | ServerConnect | ServerClose => False
  | _ => True
  end.

(** The tool handler's copy of the tool list is the proxy's, and there are no
    cached tools without a child client. *)
Definition in_sync (p : MCPProxy) : Prop :=
  th_childTools (toolHandler p) = childTools p
  /\ (childClient p = None -> childTools p = []).

(** The invariant [in_sync], as a property of the events so far and the
    proxy. *)
Definition synced (evs : list Event) (p : MCPProxy) : Prop := in_sync p.

(** No tool query has settled, or been rejected, in [evs]. *)
Definition unqueried (evs : list Event) : Prop :=
  forall c o, ~ In (ECall (ListTools c) o) evs.

(** The tool handler's list is what every fulfilled tool query of [evs]
    returned. *)
Definition fetched (evs : list Event) (p : MCPProxy) : Prop :=
  forall c v, In (ECall (ListTools c) (Resolved v)) evs ->
              th_childTools (toolHandler p) = tools_or_empty v.

(** In the world [w], [list_tools] is answered with the proxy's cached
    [childTools] and the synthetic tool. *)
Definition answers_from_cache (w : World) : Prop :=
  forall env,
    run env handleListTools w
    = mkRun w [] (Returned (childTools (proxy w) ++ [restart_server_tool])%list).

(** A program that cannot end by throwing, whatever the proxy holds and
    however its promises settle. *)
Inductive returns {A : Type} : M A -> Prop :=
| returns_Ret a : returns (Ret a)
| returns_Get k : (forall p, returns (k p)) -> returns (Get k)
| returns_Put p k : returns k -> returns (Put p k)
| returns_Log l k : returns k -> returns (Log l k)
| returns_New o k : (forall n, returns (k n)) -> returns (New o k)
| returns_Await c k : (forall o, returns (k o)) -> returns (Await c k).

(** A task that has not thrown and cannot throw later. *)
Definition task_returns {A : Type} (t : Task A) : Prop :=
  match t with
  | Finished (Returned _) => True
  | Finished (Threw _) => False
  | Suspended _ k => forall o, returns (k o)
  end.

(** What a call has given back is not a throw. *)
Definition not_thrown {A : Type} (o : option (Completion A)) : Prop :=
  match o with
  | Some (Threw _) => False
  | _ => True
  end.

(** What the child has advertised when its tool query settles with [o]. *)
Definition advertised (o : Outcome) : list Tool :=
  match o with
  | Resolved v => tools_or_empty v
  | Rejected _ => []
  end.

Section Reachable.

Variable config : ProxyConfig.
Variable stderrAccess : nat -> StderrAccess.

(** The worlds the proxy goes through when its methods run one after the
    other (each to its end before the next begins). *)
Inductive reachable : World -> Prop :=
| reach_constructed : reachable (mkWorld constructed 0 0 0)
| reach_start env w :
    reachable w -> reachable (final (run env (start config stderrAccess) w))
| reach_restart env args w :
    reachable w ->
    reachable (final (run env (handleRestartServer config stderrAccess args) w))
| reach_stop env w :
    reachable w -> reachable (final (run env stop w)).

End Reachable.

(** The world [w] with the flag [restartInProgress] set to [b]. *)
Definition with_restartInProgress (b : bool) (w : World) : World :=
  mkWorld (set_restartInProgress b (proxy w)) (heap w) (settled w) (now w).

(** ** A session *)

Module Session.

Definition config : ProxyConfig :=
  mkConfig "node" ["echo-server.js"] [] "." true 3 1000 30000.

Definition stderrAccess (t : nat) : StderrAccess := NoAccess.

Definition echo : Tool := mkTool "echo" "{}".

(** Every promise is fulfilled after a millisecond; the child advertises the
    tool [echo]. *)
Definition env_ok : Env :=
  fun _ c =>
    match c with
    | ListTools _ => (Resolved (Some [echo]), 1%N)
    | _ => (Resolved None, 1%N)
    end.


(** How the SDK reports that the child has no such method. *)
Definition method_not_found : JsError :=
  McpError ErrorCode.MethodNotFound "MCP error -32601: Method not found".

(** The child answers [tools/list] with method-not-found. *)
Definition env_no_tools_list : Env :=
  fun _ c =>
    match c with
    | ListTools _ => (Rejected method_not_found, 1%N)
    | _ => (Resolved None, 1%N)
    end.

(** The child takes 45 seconds to come up. *)
Definition env_slow_connect : Env :=
  fun _ c =>
    match c with
    | ListTools _ => (Resolved (Some [echo]), 1%N)
    | ClientConnect _ _ => (Resolved None, 45000%N)
    | _ => (Resolved None, 1%N)
    end.

Definition w_constructed : World := mkWorld constructed 0 0 0.

(** The first [start()], and the first call of the restart tool when the
    proxy was never started. *)
Definition first_start (env : Env) : Run unit :=
  run env (start config stderrAccess) w_constructed.

Definition first_child_start (env : Env) : Run unit :=
  run env (startChildServer config stderrAccess) w_constructed.

Definition first_restart (env : Env) : Run CallToolResult :=
  run env (handleRestartServer config stderrAccess JUndefined) w_constructed.

(** The world after [start()]: client 1 on transport 0, one cached tool. *)
Definition w_connected : World := final (first_start env_ok).

(** A call of the restart tool, without arguments, on the connected proxy. *)
Definition restart (env : Env) : Run CallToolResult :=
  run env (handleRestartServer config stderrAccess JUndefined) w_connected.

Definition fulfilled : Outcome := Resolved None.

(** A restart of the connected proxy that runs on its own: the old client
    and transport are closed, the new client is connected and its tool query
    is answered; the call stands at the send of tools/list_changed. *)
Definition tools_fetched : list Outcome :=
  [fulfilled; fulfilled; fulfilled; Resolved (Some [echo])].

(** A first [restart_server] call has closed the old child and awaits the
    connect of the new one (client 4 on transport 3). *)
Definition first_restart_connecting : list Step :=
  [Arrive JUndefined; Settle 0 fulfilled; Settle 0 fulfilled].

(** A second call arrives and closes client 4; then the connect of the first
    call settles with [o], and the second call runs to its end. *)
Definition second_restart (o : Outcome) : list Step :=
  [Arrive JUndefined; Settle 1 fulfilled; Settle 0 o;
   Settle 1 fulfilled; Settle 1 fulfilled; Settle 1 (Resolved (Some [echo]))].

(** How the SDK rejects a request whose connection was closed under it. *)
Definition connection_closed : JsError :=
  McpError ErrorCode.ConnectionClosed "MCP error -32000: Connection closed".

Definition pool_connected : Pool := mkPool w_connected [] [].

Definition before : Pool :=
  schedule config stderrAccess pool_connected first_restart_connecting.

Definition after (o : Outcome) : Pool :=
  schedule config stderrAccess before (second_restart o).

(** The first call has connected its child and awaits the tool list of
    client 4. *)
Definition first_restart_querying : list Step :=
  (first_restart_connecting ++ [Settle 0 fulfilled])%list.

(** A second call arrives and closes client 4 and then transport 3, while
    the tool query of the first call is answered in between; the connect of
    the second call fails; the three sends of the first call succeed. *)
Definition stale_overlap : list Step :=
  [Arrive JUndefined; Settle 1 fulfilled;
   Settle 0 (Resolved (Some [echo]));
   Settle 1 fulfilled;
   Settle 1 (Rejected connection_closed);
   Settle 0 fulfilled; Settle 0 fulfilled; Settle 0 fulfilled].

Definition stale : Pool :=
  schedule config stderrAccess pool_connected
           (first_restart_querying ++ stale_overlap).

(** The tool query of the first call is answered; a second call arrives and
    closes client 4; the three sends of the first call succeed. *)
Definition emptied_overlap : list Step :=
  [Settle 0 (Resolved (Some [echo]));
   Arrive JUndefined; Settle 1 fulfilled;
   Settle 0 fulfilled; Settle 0 fulfilled; Settle 0 fulfilled].

Definition emptied : Pool :=
  schedule config stderrAccess pool_connected
           (first_restart_querying ++ emptied_overlap).

End Session.

(** ** More about traces and states *)

(** The promises awaited in a trace, in order. *)
Definition calls (evs : list Event) : list Call :=
  flat_map (fun ev => match ev with
                      | ECall c _ => [c]
                      | _ => []
                      end) evs.

(** The objects constructed in a trace, in order. *)
Definition constructions (evs : list Event) : list ObjKind :=
  flat_map (fun ev => match ev with
                      | ENew o _ => [o]
                      | _ => []
                      end) evs.

(** The close calls [stopChildServer] makes on the endpoint the proxy holds. *)
Definition old_closes (p : MCPProxy) : list Call :=
  (match childClient p with
   | Some c => [ClientClose c]
   | None => []
   end ++
   match childTransport p with
   | Some t => [TransportClose t]
   | None => []
   end)%list.

(** The child client each of the five handler objects holds. *)
Definition handler_clients (p : MCPProxy) : list (option nat) :=
  [th_childClient (toolHandler p); resourceHandler p; promptHandler p;
   completionHandler p; coreHandler p].

(** The five handlers hold the same client, which is none or the current
    one, and the endpoint the proxy holds was constructed before [h]. *)
Definition endpoint_settled (p : MCPProxy) (h : nat) : Prop :=
  (exists v, handler_clients p = repeat v 5 /\ (v = None \/ v = childClient p))
  /\ (forall c, childClient p = Some c -> c < h)
  /\ (forall t, childTransport p = Some t -> t < h).

(** The proxy between two method calls: the restart flag is down and the
    endpoint is settled. *)
Definition at_rest (w : World) : Prop :=
  restartInProgress (proxy w) = false
  /\ endpoint_settled (proxy w) (heap w).

(** The connected proxy of the session after [stop()]. *)
Definition w_stopped : World :=
  final (run Session.env_ok stop Session.w_connected).

(** ** The command line (bin/reloaderoo.ts) *)

(** [l.includes(x)]. *)
Definition includes (x : string) (l : list string) : bool :=
  existsb (String.eqb x) l.

(** [l.indexOf(x)], -1 when [x] is absent. *)
Fixpoint indexOf (x : string) (l : list string) : Z :=
  match l with
  | [] => (-1)%Z
  | y :: rest =>
      if String.eqb y x then 0%Z
      else if (indexOf x rest =? -1)%Z then (-1)%Z
           else (indexOf x rest + 1)%Z
  end.

(** [process.argv.splice(2, 0, 'proxy')]. *)
Definition splice_proxy (argv : list string) : list string :=
  (firstn 2 argv ++ "proxy" :: skipn 2 argv)%list.

(** [shouldRunCLI()], on [process.argv]. *)
Definition shouldRunCLI (argv : list string) : bool :=
  let args := skipn 2 argv in
  if Nat.eqb (length args) 0 then false
  else if includes (nth 0 args "") ["proxy"; "inspect"; "info"; "help"] then true
  else if existsb (fun arg => includes arg ["--help"; "-h"; "--version"; "-V"]) args
       then true
  else if includes "--" args then false
  else Nat.ltb 0 (length args).

(** What the entry point does to the outside. *)
Inductive CliAction : Type :=
| StderrWrite (line : string)          (* process.stderr.write(line + '\n') *)
| ProgramParse (argv : list string)    (* program.parse(process.argv) *)
| ProgramHelp                          (* program.help(), which ends the process *)
| ProcessExit (code : Z).              (* process.exit(code) *)

(** The lines [runMCPServer] writes when no child command is given. *)
Definition usage_error : list CliAction :=
  [StderrWrite "reloaderoo: MCP development proxy server";
   StderrWrite "";
   StderrWrite "Error: Child MCP server command is required";
   StderrWrite "Usage: reloaderoo -- <child-command> [args...]";
   StderrWrite "";
   StderrWrite "Examples:";
   StderrWrite "  reloaderoo -- node my-mcp-server.js";
   StderrWrite "  reloaderoo -- python server.py --port 8080";
   StderrWrite "";
   StderrWrite "💡 For CLI tools and debugging, use:";
   StderrWrite "  reloaderoo --help              # Show all available commands";
   StderrWrite "  reloaderoo inspect --help      # Show inspection tools";
   StderrWrite "  reloaderoo info                # Show system information";
   StderrWrite "";
   ProcessExit 1].

Inductive ParseResult : Type :=
| Parsed
| ParseThrows (e : JsError)
| ParseExits.

Section EntryPoint.

(** [program.parse(argv)] of commander: it returns, throws, or ends the
    process itself (as it does after printing the help or the version). *)
Variable parse : list string -> ParseResult.

(** [runCLI()]. *)
Definition runCLI (argv : list string) : list CliAction :=
  let dashIndex := indexOf "--" argv in
  let hasValidSubcommand :=
    Nat.ltb 2 (length argv)
    && includes (nth 2 argv "") ["proxy"; "inspect"; "info"] in
  let argv' :=
    if negb hasValidSubcommand && negb (dashIndex =? -1)%Z
    then splice_proxy argv
    else argv in
  match parse argv' with
  | ParseThrows e =>
      [ProgramParse argv'; StderrWrite ("Error: " ++ error_message e);
       ProcessExit 1]
  | ParseExits => [ProgramParse argv']
  | Parsed =>
      if Nat.eqb (length argv') 2
      then [ProgramParse argv'; ProgramHelp]
      else [ProgramParse argv']
  end.

(** [runMCPServer()]. *)
Definition runMCPServer (argv : list string) : list CliAction :=
  let dashIndex := indexOf "--" argv in
  if (dashIndex =? -1)%Z || (Z.of_nat (length argv) - 1 <=? dashIndex)%Z
  then usage_error
  else runCLI (splice_proxy argv).

(** [main()]. *)
Definition main (argv : list string) : list CliAction :=
  if shouldRunCLI argv then runCLI argv else runMCPServer argv.

End EntryPoint.

(** One [program.parse] on the arguments [argv'], and the report and exit that
    follow when it throws. *)
Definition parsing (parse : list string -> ParseResult)
    (argv' : list string) : list CliAction :=
  ProgramParse argv'
  :: match parse argv' with
     | ParseThrows e =>
         [StderrWrite ("Error: " ++ error_message e); ProcessExit 1]
     | _ => []
     end.

(** ** The version shown by the command line ([getVersion]) *)

Section Version.

(** The directory of the running file, or the error thrown while it is
    computed ([fileURLToPath]). *)
Variable currentDir : JsError + string.

(** [resolve(dir, rel)] of node's [path]. *)
Variable resolve : string -> string -> string.

(** [JSON.parse(readFileSync(path, 'utf8'))]; [None] when either throws. *)
Variable readJson : string -> option JsVal.

Definition possiblePaths (dir : string) : list string :=
  [resolve dir "../../package.json";
   resolve dir "../package.json";
   resolve dir "./package.json"].

(** One turn of the loop: [Some v] when it returns [v], [None] when it goes
    on to the next path ([packageData.version] falsy, or a throw caught by
    the inner [catch], as reading [version] of [null] is). *)
Definition version_at (packagePath : string) : option JsVal :=
  match readJson packagePath with
  | Some packageData =>
      if truthy (opt_get packageData "version")
      then Some (opt_get packageData "version")
      else None
  | None => None
  end.

Fixpoint first_version (paths : list string) : option JsVal :=
  match paths with
  | [] => None
  | packagePath :: rest =>
      match version_at packagePath with
      | Some v => Some v
      | None => first_version rest
      end
  end.

(** [getVersion()]: the lines written to stderr and the value returned. *)
Definition getVersion : list string * JsVal :=
  match currentDir with
  | inr dir =>
      match first_version (possiblePaths dir) with
      | Some v => ([], v)
      | None =>
          (["Warning: Could not find package.json in any expected location"],
           JStr "0.0.0")
      end
  | inl e =>
      (["Warning: Could not read package.json: " ++ error_message e],
       JStr "0.0.0")
  end.

End Version.

(** ** The name of the proxy server ([extractServerName]) *)

(** A character the regular expression [/[\\/]/] matches. *)
Definition is_separator (c : Ascii.ascii) : bool :=
  Ascii.eqb c "/"%char || Ascii.eqb c "\"%char.

(** [s.split(/[\\/]/)]: the pieces between separators; one empty piece for
    the empty string.  Strings are byte strings here; no byte of a multi-byte
    character is a separator or a dot, so pieces are cut where JavaScript
    cuts them. *)
Fixpoint split (s : string) : list string :=
  match s with
  | EmptyString => [""]
  | String c rest =>
      if is_separator c then "" :: split rest
      else match split rest with
           | p :: ps => String c p :: ps
           | [] => [String c ""]
           end
  end.

Definition extensions : list string := [".js"; ".ts"; ".py"; ".rb"; ".go"].

(** [s.replace(/\.(js|ts|py|rb|go)$/, '')]: the match, if any, is the suffix
    that reaches the end of the string. *)
Fixpoint strip_extension (s : string) : string :=
  if includes s extensions then ""
  else match s with
       | EmptyString => ""
       | String c rest => String c (strip_extension rest)
       end.

(** [a || b] on strings. *)
Definition str_or (a b : string) : string :=
  if String.eqb a "" then b else a.

(** [extractServerName()]. *)
Definition extractServerName (config : ProxyConfig) : string :=
  let command := childCommand config in
  if String.eqb command "" then "mcp-server"
  else
    let parts := split command in
    let filename := str_or (nth (length parts - 1) parts "") "mcp-server" in
    str_or (strip_extension filename) "mcp-server".

(** The [name] the constructor gives the upstream [Server]. *)
Definition server_name (config : ProxyConfig) : string :=
  extractServerName config ++ "-dev".

(** No separator occurs in [s]. *)
Definition separator_free (s : string) : Prop :=
  forall c, In c (list_ascii_of_string s) -> is_separator c = false.

(** * Properties *)

Arguments stopChildServer : simpl never.
Arguments notifyCapabilityChanges : simpl never.
Arguments mirrorChildCapabilities : simpl never.
Arguments startChildServer : simpl never.

(** ** Running and sequencing *)

Lemma run_bind {A B : Type} (env : Env) (m : M A) (f : A -> M B) (w : World) :
  run env (bind m f) w = and_then (run env m w) (fun a w' => run env (f a) w').
Proof.
  revert w; induction m as [a|e|k IH|p k IH|l k IH|o k IH|c k IH]; intro w; simpl.
  - unfold and_then; simpl. now destruct (run env (f a) w).
  - reflexivity.
  - apply IH.
  - apply IH.
  - rewrite IH. unfold and_then, emit; simpl.
    destruct (run env k w) as [wf evs [a|e]]; reflexivity.
  - rewrite IH. unfold and_then, emit; simpl.
    destruct (run env (k (heap w)) _) as [wf evs [a|e]]; reflexivity.
  - rewrite IH. unfold and_then, emit; simpl.
    destruct (run env (k _) _) as [wf evs [a|e]]; reflexivity.
Qed.

Lemma run_try_catch {A : Type} (env : Env) (m : M A) (h : JsError -> M A) (w : World) :
  run env (try_catch m h) w = or_else (run env m w) (fun e w' => run env (h e) w').
Proof.
  revert w; induction m as [a|e|k IH|p k IH|l k IH|o k IH|c k IH]; intro w; simpl.
  - reflexivity.
  - unfold or_else; simpl. now destruct (run env (h e) w).
  - apply IH.
  - apply IH.
  - rewrite IH. unfold or_else, emit; simpl.
    destruct (run env k w) as [wf evs [a|e]]; reflexivity.
  - rewrite IH. unfold or_else, emit; simpl.
    destruct (run env (k (heap w)) _) as [wf evs [a|e]]; reflexivity.
  - rewrite IH. unfold or_else, emit; simpl.
    destruct (run env (k _) _) as [wf evs [a|e]]; reflexivity.
Qed.

(** A sequential run is one task whose promises the environment settles as
    soon as they are awaited. *)
Lemma run_advance {A : Type} (env : Env) (m : M A) (w : World) :
  run env m w =
  match task (advance m w) with
  | Finished c => mkRun (after (advance m w)) (emitted (advance m w)) c
  | Suspended c k =>
      let w' := after (advance m w) in
      let o := fst (env (settled w') c) in
      let dt := snd (env (settled w') c) in
      let r := run env (k o)
                   (mkWorld (proxy w') (heap w') (S (settled w')) (now w' + dt)%N) in
      mkRun (final r) (emitted (advance m w) ++ ECall c o :: events r) (completion r)
  end.
Proof.
  revert w; induction m as [a|e|k IH|p k IH|l k IH|o k IH|c k IH]; intro w; simpl;
    try reflexivity.
  - apply IH.
  - apply IH.
  - rewrite IH. destruct (task (advance k w)); reflexivity.
  - rewrite IH. destruct (task (advance (k (heap w)) _)); reflexivity.
Qed.

(** ** Which promises a program can await *)

Lemma issues_bind {A B : Type} (P : Call -> Prop) (m : M A) (f : A -> M B) :
  issues P m -> (forall a, issues P (f a)) -> issues P (bind m f).
Proof.
  intros Hm Hf. induction Hm; simpl; try (constructor; auto). apply Hf.
Qed.

Lemma issues_try_catch {A : Type} (P : Call -> Prop) (m : M A) (h : JsError -> M A) :
  issues P m -> (forall e, issues P (h e)) -> issues P (try_catch m h).
Proof.
  intros Hm Hh. induction Hm; simpl; try (constructor; auto). apply Hh.
Qed.

Lemma issues_run {A : Type} (P : Call -> Prop) (env : Env) (m : M A) :
  issues P m -> forall w, Forall (call_satisfies P) (events (run env m w)).
Proof.
  induction 1; intro w; simpl; auto; constructor; simpl; auto.
Qed.

Lemma issues_await (P : Call -> Prop) (c : Call) : P c -> issues P (await c).
Proof.
  intro H. unfold await. constructor; [exact H|]. intros [v|e]; constructor.
Qed.

Lemma issues_modify (P : Call -> Prop) f : issues P (modify f).
Proof. unfold modify. repeat constructor. Qed.

Lemma issues_logger (P : Call -> Prop) lv msg d : issues P (logger lv msg d).
Proof. unfold logger. repeat constructor. Qed.

Lemma issues_logger_from (P : Call -> Prop) src lv msg d :
  issues P (logger_from src lv msg d).
Proof. unfold logger_from. repeat constructor. Qed.

(** ** Stopping the child *)

Lemma run_stopChildServer (env : Env) (w : World) :
  exists w' evs,
    run env stopChildServer w = mkRun w' evs (Returned tt)
    /\ proxy w' = stopped (proxy w)
    /\ heap w' = heap w
    /\ Forall is_log_or_close evs.
Proof.
  destruct w as [p h s t].
  destruct p as [cc ct sd rip tools th rh ph ch kh].
  unfold stopChildServer, stopped; simpl.
  destruct cc as [c|]; destruct ct as [tr|]; simpl;
    repeat match goal with
           | |- context [env ?n ?c] =>
               destruct (env n c) as [[?|?] ?]; simpl
           end;
    do 2 eexists; (split; [reflexivity|]);
    repeat split; repeat constructor.
Qed.

Opaque stopChildServer.

Lemma stopped_childTools (p : MCPProxy) : childTools (stopped p) = [].
Proof. reflexivity. Qed.

Lemma stopped_disconnected (p : MCPProxy) :
  childClient (stopped p) = None /\ childTransport (stopped p) = None.
Proof.
  destruct p as [[c|] [t|] sd rip tools th rh ph ch kh]; split; reflexivity.
Qed.

Lemma stopped_flags (p : MCPProxy) :
  isShuttingDown (stopped p) = isShuttingDown p
  /\ restartInProgress (stopped p) = restartInProgress p.
Proof.
  destruct p as [[c|] [t|] sd rip tools th rh ph ch kh]; split; reflexivity.
Qed.

(** C8: whatever the two close calls do, [stopChildServer] returns normally
    and [childTools] is the empty list when it returns. *)
Theorem stopChildServer_resets_tool_cache (env : Env) (w : World) :
  completion (run env stopChildServer w) = Returned tt
  /\ childTools (proxy (final (run env stopChildServer w))) = [].
Proof.
  destruct (run_stopChildServer env w) as (w' & evs & E & Hp & _ & _).
  rewrite E; simpl. rewrite Hp. split; [reflexivity | apply stopped_childTools].
Qed.

(** ** Stopping the proxy *)

Lemma run_stop_shutting_down (env : Env) (w : World) :
  isShuttingDown (proxy w) = true ->
  run env stop w = mkRun w [] (Returned tt).
Proof.
  intro H. unfold stop; simpl. rewrite H. reflexivity.
Qed.

Lemma run_stop_first (env : Env) (w : World) :
  isShuttingDown (proxy w) = false ->
  completion (run env stop w) = Returned tt
  /\ proxy (final (run env stop w)) = stopped (set_isShuttingDown true (proxy w)).
Proof.
  intro H. destruct w as [p h s t]; simpl in H.
  unfold stop; cbn. rewrite H. unfold emit; cbn.
  rewrite run_try_catch, run_bind.
  match goal with
  | |- context [run env stopChildServer ?w0] =>
      destruct (run_stopChildServer env w0) as (w' & evs & E & Hp & _ & _)
  end.
  rewrite E. unfold and_then, or_else; simpl.
  destruct (env (settled w') ServerClose) as [[v|e] dt]; simpl;
    rewrite Hp; split; reflexivity.
Qed.

(** C9: once [stop()] has run, a further [stop()] returns at once, without
    error, without any effect and with the proxy unchanged. *)
Theorem stop_idempotent (env env' : Env) (w : World) :
  completion (run env stop w) = Returned tt
  /\ run env' stop (final (run env stop w))
     = mkRun (final (run env stop w)) [] (Returned tt).
Proof.
  destruct (isShuttingDown (proxy w)) eqn:H.
  - rewrite (run_stop_shutting_down env w H); simpl. split; [reflexivity|].
    now apply run_stop_shutting_down.
  - destruct (run_stop_first env w H) as [Hc Hs]. split; [exact Hc|].
    apply run_stop_shutting_down. rewrite Hs.
    now destruct (stopped_flags (set_isShuttingDown true (proxy w))) as [-> _].
Qed.

(** ** Notifications in a trace *)

Lemma attempted_app (l1 l2 : list Event) :
  attempted (l1 ++ l2) = (attempted l1 ++ attempted l2)%list.
Proof. apply flat_map_app. Qed.

Lemma delivered_app (l1 l2 : list Event) :
  delivered (l1 ++ l2) = (delivered l1 ++ delivered l2)%list.
Proof. apply flat_map_app. Qed.

Lemma nothing_attempted_nothing_delivered (evs : list Event) :
  attempted evs = [] -> delivered evs = [].
Proof.
  induction evs as [|ev evs IH]; [reflexivity|].
  destruct ev as [l|o n|c o]; simpl; auto.
  destruct c; simpl; auto. discriminate.
Qed.

Lemma closes_attempt_nothing (evs : list Event) :
  Forall is_log_or_close evs -> attempted evs = [] /\ delivered evs = [].
Proof.
  induction 1 as [|ev evs Hev _ [IHa IHd]]; [split; reflexivity|].
  destruct ev as [l|o n|c o]; simpl in *; try contradiction; auto.
  destruct c; simpl in *; try contradiction; auto.
Qed.

Ltac trace_simpl :=
  repeat (progress (rewrite ?attempted_app, ?delivered_app, ?app_nil_r;
                    repeat match goal with
                           | H : attempted _ = _ |- _ => rewrite H
                           | H : delivered _ = _ |- _ => rewrite H
                           end;
                    cbn [attempted delivered flat_map app])).

Lemma sends_nothing (evs : list Event) (b : bool) :
  attempted evs = [] -> sends evs b.
Proof.
  intro H. exists 0, 0. rewrite H, (nothing_attempted_nothing_delivered _ H).
  destruct b; auto.
Qed.

Lemma sends_same (evs evs' : list Event) (b : bool) :
  attempted evs' = attempted evs -> delivered evs' = delivered evs ->
  sends evs b -> sends evs' b.
Proof.
  intros H1 H2 (k & j & Ha & Hd & Hk). exists k, j.
  rewrite H1, H2. auto.
Qed.

(** [notifyCapabilityChanges] never throws, leaves the proxy as it is, and
    sends a prefix of the three notifications: all three when no send fails. *)
Lemma run_notifyCapabilityChanges (env : Env) (w : World) :
  exists w' evs,
    run env notifyCapabilityChanges w = mkRun w' evs (Returned tt)
    /\ proxy w' = proxy w
    /\ heap w' = heap w
    /\ sends evs true
    /\ (fulfils env is_notification -> delivered evs = list_changed).
Proof.
  destruct w as [p h s t].
  unfold notifyCapabilityChanges; simpl.
  destruct (env s (ServerNotification TOOLS_LIST_CHANGED)) as [[v1|e1] d1] eqn:E1;
    simpl.
  - destruct (env (S s) (ServerNotification PROMPTS_LIST_CHANGED))
      as [[v2|e2] d2] eqn:E2; simpl.
    + destruct (env (S (S s)) (ServerNotification RESOURCES_LIST_CHANGED))
        as [[v3|e3] d3] eqn:E3; simpl.
      * do 2 eexists; split; [reflexivity|].
        split; [reflexivity|]. split; [reflexivity|]. split; [|reflexivity].
        exists 3, 3; auto.
      * do 2 eexists; split; [reflexivity|].
        split; [reflexivity|]. split; [reflexivity|]. split.
        -- exists 3, 2; auto.
        -- intro F. specialize (F (S (S s)) (ServerNotification RESOURCES_LIST_CHANGED) I).
           now rewrite E3 in F.
    + do 2 eexists; split; [reflexivity|].
      split; [reflexivity|]. split; [reflexivity|]. split.
      * exists 2, 1; auto.
      * intro F. specialize (F (S s) (ServerNotification PROMPTS_LIST_CHANGED) I).
        now rewrite E2 in F.
  - do 2 eexists; split; [reflexivity|].
    split; [reflexivity|]. split; [reflexivity|]. split.
    + exists 1, 0; auto.
    + intro F. specialize (F s (ServerNotification TOOLS_LIST_CHANGED) I).
      now rewrite E1 in F.
Qed.

(** ** Mirroring the child's tools *)

Opaque notifyCapabilityChanges.

Lemma mirror_resolved (env : Env) (w : World) (c : nat) (v : option (list Tool)) :
  childClient (proxy w) = Some c ->
  fst (env (settled w) (ListTools c)) = Resolved v ->
  exists w' evs,
    run env mirrorChildCapabilities w = mkRun w' evs (Returned tt)
    /\ proxy w' = mirrored v (proxy w)
    /\ heap w' = heap w
    /\ sends evs (restartInProgress (proxy w))
    /\ (fulfils env is_notification ->
        delivered evs = if restartInProgress (proxy w) then list_changed else []).
Proof.
  destruct w as [p h s t].
  destruct p as [cc ct sd rip tools th rh ph ch kh]; simpl.
  intros -> E. unfold mirrorChildCapabilities; cbn.
  rewrite E; cbn. destruct rip; cbn.
  - rewrite run_try_catch, run_bind.
    match goal with
    | |- context [run env notifyCapabilityChanges ?w0] =>
        destruct (run_notifyCapabilityChanges env w0)
          as (w' & evs & R & Hp & Hh & Ha & Hd)
    end.
    rewrite R. unfold and_then, or_else, emit; cbn.
    destruct w' as [p' h' s' t']; simpl in *; subst p' h'.
    do 2 eexists; split; [reflexivity|].
    rewrite app_nil_r.
    split; [reflexivity|]. split; [reflexivity|]. split; [|assumption].
    apply (sends_same (evs:=evs)); [reflexivity|reflexivity|exact Ha].
  - do 2 eexists; split; [reflexivity|].
    split; [reflexivity|]. split; [reflexivity|].
    split; [now apply sends_nothing|reflexivity].
Qed.

Lemma mirror_method_not_found (env : Env) (w : World) (c : nat) (e : JsError) :
  childClient (proxy w) = Some c ->
  fst (env (settled w) (ListTools c)) = Rejected e ->
  is_method_not_found e = true ->
  exists w' evs,
    run env mirrorChildCapabilities w = mkRun w' evs (Returned tt)
    /\ proxy w' = mirrored None (proxy w)
    /\ heap w' = heap w
    /\ attempted evs = [].
Proof.
  destruct w as [p h s t].
  destruct p as [cc ct sd rip tools th rh ph ch kh]; simpl.
  intros -> E Hm. unfold mirrorChildCapabilities; cbn.
  rewrite E; cbn. rewrite Hm; cbn.
  destruct rip; cbn; do 2 eexists; (split; [reflexivity|]); repeat split.
Qed.

Lemma mirror_fatal (env : Env) (w : World) (c : nat) (e : JsError) :
  childClient (proxy w) = Some c ->
  fst (env (settled w) (ListTools c)) = Rejected e ->
  is_method_not_found e = false ->
  exists w' evs,
    run env mirrorChildCapabilities w = mkRun w' evs (Threw e)
    /\ proxy w' = proxy w
    /\ heap w' = heap w
    /\ attempted evs = [].
Proof.
  destruct w as [p h s t].
  destruct p as [cc ct sd rip tools th rh ph ch kh]; simpl.
  intros -> E Hm. unfold mirrorChildCapabilities; cbn.
  rewrite E; cbn. rewrite Hm; cbn.
  do 2 eexists; (split; [reflexivity|]); repeat split.
Qed.

Lemma mirror_not_connected (env : Env) (w : World) :
  childClient (proxy w) = None ->
  run env mirrorChildCapabilities w =
    mkRun w [] (Threw (Error "Child client not connected")).
Proof.
  intro H. unfold mirrorChildCapabilities; cbn. rewrite H. reflexivity.
Qed.

(** ** Starting the child *)

Opaque mirrorChildCapabilities stopped.

Lemma run_captureStderr (stderrAccess : nat -> StderrAccess) (env : Env)
      (tr : option nat) (w : World) :
  exists evs,
    run env (captureStderr stderrAccess tr) w = mkRun w evs (Returned tt)
    /\ Forall is_log_or_close evs.
Proof.
  destruct w as [p h s t]. unfold captureStderr.
  destruct tr as [tr|]; [destruct (stderrAccess tr)|]; cbn;
    eexists; (split; [reflexivity|]); repeat constructor.
Qed.

Opaque captureStderr.

Section StartChild.

Variable config : ProxyConfig.
Variable stderrAccess : nat -> StderrAccess.

(** The summary of [startChildServer]: the outcome of the connect and of
    the tool query decide how it completes and what it leaves. *)
Lemma run_startChildServer (env : Env) (w : World) :
  exists n1 n2 w' evs,
    let sc := start_outcome
                (fst (env n1 (ClientConnect (S (heap w)) (heap w))))
                (fst (env n2 (ListTools (S (heap w))))) in
    run env (startChildServer config stderrAccess) w
      = mkRun w' evs (start_completion sc)
    /\ proxy w' = start_proxy sc (connecting (proxy w) (heap w))
    /\ heap w' = S (S (heap w))
    /\ sends evs (notifies sc (proxy w))
    /\ (fulfils env is_notification ->
        delivered evs = if notifies sc (proxy w) then list_changed else []).
Proof.
  unfold startChildServer. rewrite run_bind.
  destruct (run_stopChildServer env w) as (w1 & evs1 & E1 & Hp1 & Hh1 & Hc1).
  rewrite E1. unfold and_then; cbn.
  destruct w1 as [p1 h1 s1 t1]; cbn in *. subst p1 h1.
  exists s1.
  destruct (env s1 (ClientConnect (S (heap w)) (heap w))) as [[vc|ec] dc] eqn:Ec;
    cbn.
  all: destruct (closes_attempt_nothing Hc1) as [Ha1 Hd1].
  2:{ exists 0. do 2 eexists. split; [reflexivity|].
      split; [reflexivity|]. split; [reflexivity|].
      split; [apply sends_nothing|intros _]; now trace_simpl. }
  rewrite run_bind.
  match goal with
  | |- context [run env (captureStderr stderrAccess ?tr) ?w0] =>
      destruct (run_captureStderr stderrAccess env tr w0) as (evs2 & E2 & Hc2)
  end.
  rewrite E2. destruct (closes_attempt_nothing Hc2) as [Ha2 Hd2].
  unfold and_then; cbn. rewrite run_bind.
  exists (S s1).
  destruct (env (S s1) (ListTools (S (heap w)))) as [[v|e] dl] eqn:El; cbn.
  - match goal with
    | |- context [run env mirrorChildCapabilities ?w0] =>
        destruct (@mirror_resolved env w0 (S (heap w)) v eq_refl (f_equal fst El))
          as (w3 & evs3 & E3 & Hp3 & Hh3 & Ha3 & Hd3)
    end.
    rewrite E3. unfold and_then; cbn.
    do 2 eexists. split; [reflexivity|]. cbn in *.
    split; [exact Hp3|]. split; [exact Hh3|].
    assert (R : restartInProgress (stopped (proxy w)) = restartInProgress (proxy w))
      by apply stopped_flags.
    rewrite R in *.
    split; [|intro F; specialize (Hd3 F); now trace_simpl].
    apply (sends_same (evs:=evs3)); [now trace_simpl|now trace_simpl|].
    exact Ha3.
  - destruct (is_method_not_found e) eqn:Hm.
    + match goal with
      | |- context [run env mirrorChildCapabilities ?w0] =>
          destruct (@mirror_method_not_found env w0 (S (heap w)) e eq_refl
                      (f_equal fst El) Hm)
            as (w3 & evs3 & E3 & Hp3 & Hh3 & Ha3)
      end.
      pose proof (nothing_attempted_nothing_delivered _ Ha3) as Hd3.
      rewrite E3. unfold and_then; cbn.
      do 2 eexists. split; [reflexivity|]. cbn in *.
      split; [exact Hp3|]. split; [exact Hh3|].
      split; [apply sends_nothing|intros _]; now trace_simpl.
    + match goal with
      | |- context [run env mirrorChildCapabilities ?w0] =>
          destruct (@mirror_fatal env w0 (S (heap w)) e eq_refl
                      (f_equal fst El) Hm)
            as (w3 & evs3 & E3 & Hp3 & Hh3 & Ha3)
      end.
      pose proof (nothing_attempted_nothing_delivered _ Ha3) as Hd3.
      rewrite E3. unfold and_then; cbn.
      do 2 eexists. split; [reflexivity|]. cbn in *.
      split; [exact Hp3|]. split; [exact Hh3|].
      split; [apply sends_nothing|intros _]; now trace_simpl.
Qed.

End StartChild.

(** ** The restart tool *)

Section Restart.

Variable config : ProxyConfig.
Variable stderrAccess : nat -> StderrAccess.

(** The handler in terms of [startChildServer]: it logs, sets the flag,
    starts the child, and turns a throw into an error result. *)
Lemma run_handleRestartServer (env : Env) (args : JsVal) (w : World) :
  let r := run env (startChildServer config stderrAccess) (restarting w) in
  run env (handleRestartServer config stderrAccess args) w =
    match completion r with
    | Returned _ =>
        mkRun (final r) (restart_log args :: events r) (Returned restart_success)
    | Threw e =>
        mkRun (mkWorld (set_restartInProgress false (proxy (final r)))
                       (heap (final r)) (settled (final r)) (now (final r)))
              (restart_log args :: events r ++
                 [ELog (mkLog error "Failed to restart child server"
                              (DMessage (error_message e)) None)])
              (Returned (restart_failure (error_message e)))
    end.
Proof.
  unfold handleRestartServer, restarting.
  rewrite run_try_catch. cbn. rewrite run_bind.
  destruct (run env (startChildServer config stderrAccess) _)
    as [wf evs [[]|e]]; cbn; unfold or_else, and_then, emit; cbn.
  - now rewrite app_nil_r.
  - reflexivity.
Qed.

End Restart.

Ltac issues_tac :=
  repeat first
    [ apply issues_bind
    | apply issues_try_catch
    | apply issues_await
    | apply issues_modify
    | apply issues_logger
    | apply issues_logger_from
    | apply issues_Ret
    | apply issues_Throw
    | apply issues_Get
    | apply issues_New
    | intro
    | exact I
    | match goal with
      | |- issues _ (match ?x with _ => _ end) => destruct x
      end ].

Transparent stopChildServer notifyCapabilityChanges mirrorChildCapabilities
            captureStderr.

Lemma issues_handleRestartServer (config : ProxyConfig)
      (stderrAccess : nat -> StderrAccess) (args : JsVal) :
  issues spares_upstream (handleRestartServer config stderrAccess args).
Proof.
  unfold handleRestartServer, startChildServer, stopChildServer,
    mirrorChildCapabilities, notifyCapabilityChanges, captureStderr,
    updateHandlersWithChildClient, get, new.
  issues_tac.
Qed.

Opaque stopChildServer notifyCapabilityChanges mirrorChildCapabilities
       captureStderr.

(** *** No throw, in any interleaving *)

Lemma returns_bind {A B : Type} (m : M A) (f : A -> M B) :
  returns m -> (forall a, returns (f a)) -> returns (bind m f).
Proof.
  intros Hm Hf. induction Hm; simpl; try (constructor; auto). apply Hf.
Qed.

Lemma returns_try_catch {A : Type} (m : M A) (h : JsError -> M A) :
  (forall e, returns (h e)) -> returns (try_catch m h).
Proof.
  intro Hh. induction m; simpl; try (constructor; auto). apply Hh.
Qed.

Lemma returns_handleRestartServer (config : ProxyConfig)
      (stderrAccess : nat -> StderrAccess) (args : JsVal) :
  returns (handleRestartServer config stderrAccess args).
Proof.
  unfold handleRestartServer. apply returns_try_catch. intro e.
  unfold modify, logger; cbn. repeat constructor.
Qed.

Lemma returns_advance {A : Type} (m : M A) (w : World) :
  returns m -> task_returns (task (advance m w)).
Proof.
  intro H. revert w. induction H; intro w; simpl; auto.
Qed.

Lemma returns_run {A : Type} (env : Env) (m : M A) (w : World) :
  returns m -> exists a, completion (run env m w) = Returned a.
Proof.
  intro H. revert w. induction H; intro w; simpl; eauto.
Qed.

Lemma replace_task_returns (i : nat) (t : Task CallToolResult)
      (l : list (Task CallToolResult)) :
  task_returns t -> Forall task_returns l ->
  Forall task_returns (replace_task i t l).
Proof.
  intros Ht Hl. revert i. induction Hl as [|x l Hx Hl IH]; intro i.
  - destruct i; constructor.
  - destruct i; simpl; constructor; auto.
Qed.

Lemma step_returns (config : ProxyConfig) (stderrAccess : nat -> StderrAccess)
      (pl : Pool) (s : Step) :
  Forall task_returns (tasks pl) ->
  Forall task_returns (tasks (step config stderrAccess pl s)).
Proof.
  intro H. destruct s as [args|i o]; unfold step.
  - cbn [tasks]. apply Forall_app. split; [exact H|]. constructor; [|constructor].
    apply returns_advance, returns_handleRestartServer.
  - destruct (nth_error (tasks pl) i) as [[c|c k]|] eqn:E; try exact H.
    cbn [tasks]. apply replace_task_returns; [|exact H].
    apply returns_advance.
    apply nth_error_In in E.
    rewrite Forall_forall in H. exact (H _ E o).
Qed.

Lemma schedule_returns (config : ProxyConfig)
      (stderrAccess : nat -> StderrAccess) (steps : list Step) (pl : Pool) :
  Forall task_returns (tasks pl) ->
  Forall not_thrown (outcomes (schedule config stderrAccess pl steps)).
Proof.
  revert pl. induction steps as [|s steps IH]; intros pl H; simpl.
  - unfold outcomes. rewrite Forall_map.
    eapply Forall_impl; [|exact H].
    intros [[r|e]|c k]; simpl; auto.
  - apply IH, step_returns, H.
Qed.

(** C6: the restart tool never throws: a failed start of the child (the
    connect that spawns it and shakes hands is rejected, or the tool query
    fails fatally) comes back as a result marked [isError], a successful one
    as the success text; the handler never closes the upstream server; and
    however several calls are interleaved, none of them ends by throwing. *)
Theorem handleRestartServer_never_throws (config : ProxyConfig)
        (stderrAccess : nat -> StderrAccess) (env : Env) (args : JsVal)
        (w : World) :
  let r := run env (handleRestartServer config stderrAccess args) w in
  (exists res, completion r = Returned res
     /\ match completion (run env (startChildServer config stderrAccess)
                               (restarting w)) with
        | Returned _ => res = restart_success
        | Threw e => res = restart_failure (error_message e)
                     /\ isError res = Some true
        end)
  /\ Forall (call_satisfies spares_upstream) (events r)
  /\ (forall steps,
         Forall not_thrown
                (outcomes (schedule config stderrAccess (mkPool w [] []) steps))).
Proof.
  split; [|split].
  - rewrite run_handleRestartServer.
    destruct (completion (run env (startChildServer config stderrAccess)
                              (restarting w))) as [[]|e];
      eexists; split; try reflexivity. split; reflexivity.
  - apply issues_run, issues_handleRestartServer.
  - intro steps. apply schedule_returns. constructor.
Qed.

(** C10: two calls of the restart tool with any two arguments (so also two
    that differ only in [force], present or not) leave the same world, return
    the same result and have the same trace after the first log entry, which
    is the only place where [force] appears. *)
Theorem force_is_only_logged (config : ProxyConfig)
        (stderrAccess : nat -> StderrAccess) (env : Env) (args1 args2 : JsVal)
        (w : World) :
  let r1 := run env (handleRestartServer config stderrAccess args1) w in
  let r2 := run env (handleRestartServer config stderrAccess args2) w in
  final r1 = final r2
  /\ completion r1 = completion r2
  /\ exists rest, events r1 = restart_log args1 :: rest
                  /\ events r2 = restart_log args2 :: rest.
Proof.
  cbv zeta. rewrite !run_handleRestartServer.
  destruct (completion (run env (startChildServer config stderrAccess)
                            (restarting w))) as [[]|e]; cbn;
    (split; [reflexivity|]); (split; [reflexivity|]);
    eexists; split; reflexivity.
Qed.

(** ** Starting the proxy *)

(** [start()] in terms of [startChildServer]. *)
Lemma run_start (config : ProxyConfig) (stderrAccess : nat -> StderrAccess)
      (env : Env) (w : World) :
  let r := run env (startChildServer config stderrAccess) w in
  proxy (final (run env (start config stderrAccess) w)) = proxy (final r)
  /\ attempted (events (run env (start config stderrAccess) w))
     = attempted (events r)
  /\ completion (run env (start config stderrAccess) w)
     = match completion r with
       | Threw e => Threw e
       | Returned _ =>
           match fst (env (settled (final r)) ServerConnect) with
           | Resolved _ => Returned tt
           | Rejected e => Threw e
           end
       end.
Proof.
  unfold start. cbn. rewrite run_bind.
  destruct (run env (startChildServer config stderrAccess) w)
    as [[p h s t] evs [[]|e]]; unfold and_then; cbn;
    [|repeat split; reflexivity].
  destruct (env s ServerConnect) as [[v|e] d]; cbn;
    (split; [reflexivity|]); (split; [now trace_simpl|reflexivity]).
Qed.

(** ** A child without tools/list, and other failures of the tool query *)

(** C5: when the connect succeeds and the tool query is rejected with [e]:
    if [e] is an [McpError] with code [MethodNotFound], the start of the child
    completes normally, the cached tool list and the tool handler's copy are
    empty and the handlers hold the new client, so a restart reports success
    and [start()] completes as the connect of the upstream server does; for
    any other [e]
    the start of the child throws [e] itself, [start()] throws it too, and a
    restart reports the failure. *)
Theorem tool_query_failure_policy (config : ProxyConfig)
        (stderrAccess : nat -> StderrAccess) (env : Env) (args : JsVal)
        (w : World) (e : JsError) :
  fulfils env is_connect ->
  (forall n c, fst (env n (ListTools c)) = Rejected e) ->
  let r := run env (startChildServer config stderrAccess) w in
  let t := run env (handleRestartServer config stderrAccess args) w in
  let s := run env (start config stderrAccess) w in
  if is_method_not_found e then
    completion r = Returned tt
    /\ childTools (proxy (final r)) = []
    /\ th_childTools (toolHandler (proxy (final r))) = []
    /\ childClient (proxy (final r)) = Some (S (heap w))
    /\ th_childClient (toolHandler (proxy (final r))) = Some (S (heap w))
    /\ completion t = Returned restart_success
    /\ completion s = match fst (env (settled (final r)) ServerConnect) with
                      | Resolved _ => Returned tt
                      | Rejected e' => Threw e'
                      end
  else
    completion r = Threw e
    /\ completion t = Returned (restart_failure (error_message e))
    /\ completion s = Threw e.
Proof.
  intros Hc Hl r t s.
  assert (S : forall w0, exists w' evs,
            run env (startChildServer config stderrAccess) w0 =
              mkRun w' evs (start_completion
                              (if is_method_not_found e then Degraded e
                               else MirrorFailed e))
            /\ proxy w' = start_proxy (if is_method_not_found e then Degraded e
                                       else MirrorFailed e)
                            (connecting (proxy w0) (heap w0))).
  { intro w0.
    destruct (run_startChildServer config stderrAccess env w0)
      as (n1 & n2 & w' & evs & E & Hp & _).
    cbv zeta in E, Hp. rewrite Hl in E, Hp.
    specialize (Hc n1 (ClientConnect (S (heap w0)) (heap w0)) I).
    destruct (fst (env n1 (ClientConnect (S (heap w0)) (heap w0))));
      [|discriminate].
    cbn in E, Hp. eauto. }
  assert (Hs : completion s =
               match completion r with
               | Threw e' => Threw e'
               | Returned _ =>
                   match fst (env (settled (final r)) ServerConnect) with
                   | Resolved _ => Returned tt
                   | Rejected e' => Threw e'
                   end
               end)
    by apply run_start.
  rewrite Hs. clear Hs.
  subst r t s. rewrite run_handleRestartServer.
  destruct (S w) as (w1 & evs1 & E1 & Hp1).
  destruct (S (restarting w)) as (w2 & evs2 & E2 & Hp2).
  rewrite E1 in *. rewrite E2. clear S.
  destruct (is_method_not_found e); cbn in *.
  - rewrite Hp1. repeat split; reflexivity.
  - repeat split.
Qed.

(** ** The tool list the client sees *)

Transparent stopped.

Lemma in_sync_stopped (p : MCPProxy) : in_sync p -> in_sync (stopped p).
Proof.
  destruct p as [[c|] [t|] sd rip tools th rh ph ch kh];
    unfold in_sync; cbn; intros [H1 H2]; split; auto;
    rewrite H1; now apply H2.
Qed.

Opaque stopped.

Lemma in_sync_connecting (p : MCPProxy) (h : nat) :
  in_sync p -> in_sync (connecting p h).
Proof.
  intro H. apply in_sync_stopped in H. destruct H as [H1 H2].
  unfold connecting, in_sync in *. cbn. split; [|discriminate].
  rewrite H1. reflexivity.
Qed.

Lemma in_sync_mirrored (v : option (list Tool)) (p : MCPProxy) :
  childClient p <> None -> in_sync (mirrored v p).
Proof.
  intro H. unfold in_sync, mirrored; cbn. split; [reflexivity|].
  intro H'. contradiction.
Qed.

Lemma in_sync_start_proxy (sc : StartOutcome) (p : MCPProxy) (h : nat) :
  in_sync p -> in_sync (start_proxy sc (connecting p h)).
Proof.
  intro H.
  destruct sc; cbn; try (apply in_sync_connecting; exact H);
    apply in_sync_mirrored; discriminate.
Qed.

Lemma in_sync_flags (p : MCPProxy) (b : bool) :
  in_sync p ->
  in_sync (set_restartInProgress b p) /\ in_sync (set_isShuttingDown b p).
Proof. intro H. split; exact H. Qed.

Section Sequential.

Variable config : ProxyConfig.
Variable stderrAccess : nat -> StderrAccess.

Lemma reachable_in_sync (w : World) :
  reachable config stderrAccess w -> in_sync (proxy w).
Proof.
  induction 1 as [|env w _ IH|env args w _ IH|env w _ IH].
  - split; reflexivity.
  - destruct (run_start config stderrAccess env w) as (-> & _).
    destruct (run_startChildServer config stderrAccess env w)
      as (n1 & n2 & w' & evs & E & Hp & _).
    cbv zeta in E, Hp. rewrite E; cbn. rewrite Hp.
    now apply in_sync_start_proxy.
  - rewrite run_handleRestartServer.
    destruct (run_startChildServer config stderrAccess env (restarting w))
      as (n1 & n2 & w' & evs & E & Hp & _).
    cbv zeta in E, Hp. rewrite E; cbn.
    assert (in_sync (proxy w')).
    { rewrite Hp. apply in_sync_start_proxy. exact IH. }
    destruct (start_completion _); cbn; [assumption|].
    now apply in_sync_flags.
  - destruct (isShuttingDown (proxy w)) eqn:Hs.
    + now rewrite run_stop_shutting_down.
    + destruct (run_stop_first env w Hs) as [_ ->].
      now apply in_sync_stopped, in_sync_flags.
Qed.

(** Between two methods, stopping the child also empties the tool handler's
    copy of the tool list. *)
Lemma stopChildServer_resets_handler_copy (env : Env) (w : World) :
  reachable config stderrAccess w ->
  th_childTools (toolHandler (proxy (final (run env stopChildServer w)))) = [].
Proof.
  intro Hr. apply reachable_in_sync, in_sync_stopped in Hr.
  destruct (run_stopChildServer env w) as (w' & evs & E & Hp & _ & _).
  rewrite E; cbn. rewrite Hp. destruct Hr as [-> _].
  apply stopped_childTools.
Qed.

End Sequential.

Lemma run_handleListTools (env : Env) (w : World) :
  run env handleListTools w =
    mkRun w [] (Returned (th_childTools (toolHandler (proxy w))
                            ++ [restart_server_tool])%list).
Proof. reflexivity. Qed.

(** *** One invocation on its own *)

(** [holds] is monotone in the postcondition, and follows the structure of
    programs: sequencing and [try]. *)
Lemma holds_weaken {A : Type} (I : list Event -> MCPProxy -> Prop)
    (Q Q' : Completion A -> list Event -> MCPProxy -> Prop) (m : M A) :
  (forall c evs p, Q c evs p -> Q' c evs p) ->
  forall evs p, holds I Q m evs p -> holds I Q' m evs p.
Proof.
  intro HQ. induction m as [a|e|k IH|q k IH|l k IH|o k IH|c k IH];
    intros evs p; cbn; auto.
  intros [HI H]. split; auto.
Qed.

Lemma holds_bind {A B : Type} (I : list Event -> MCPProxy -> Prop)
    (Q : Completion B -> list Event -> MCPProxy -> Prop)
    (m : M A) (f : A -> M B) :
  forall evs p,
    holds I (fun c evs' p' =>
               match c with
               | Returned a => holds I Q (f a) evs' p'
               | Threw e => Q (Threw e) evs' p'
               end) m evs p ->
    holds I Q (bind m f) evs p.
Proof.
  induction m as [a|e|k IH|q k IH|l k IH|o k IH|c k IH];
    intros evs p; cbn; auto.
  intros [HI H]. split; auto.
Qed.

Lemma holds_try_catch {A : Type} (I : list Event -> MCPProxy -> Prop)
    (Q : Completion A -> list Event -> MCPProxy -> Prop)
    (m : M A) (h : JsError -> M A) :
  forall evs p,
    holds I (fun c evs' p' =>
               match c with
               | Returned a => Q (Returned a) evs' p'
               | Threw e => holds I Q (h e) evs' p'
               end) m evs p ->
    holds I Q (try_catch m h) evs p.
Proof.
  induction m as [a|e|k IH|q k IH|l k IH|o k IH|c k IH];
    intros evs p; cbn; auto.
  intros [HI H]. split; auto.
Qed.

(** [holds] speaks of the invocation on its own: of the segment up to the
    first await, and of the segment reached when any number of promises have
    settled. *)
Lemma advance_holds {A : Type} (I : list Event -> MCPProxy -> Prop)
    (Q : Completion A -> list Event -> MCPProxy -> Prop) (m : M A) :
  forall evs w,
    holds I Q m evs (proxy w) -> segment_holds I Q evs (advance m w).
Proof.
  unfold segment_holds.
  induction m as [a|e|k IH|q k IH|l k IH|o k IH|c k IH];
    intros evs w; cbn.
  - now rewrite app_nil_r.
  - now rewrite app_nil_r.
  - apply IH.
  - intro H. apply (IH evs (mkWorld q (heap w) (settled w) (now w)) H).
  - intro H. specialize (IH _ w H).
    destruct (task (advance k w)); cbn in *.
    + now rewrite <- app_assoc in IH.
    + destruct IH as [H1 H2]. split.
      * now rewrite <- app_assoc in H1.
      * intro o'. specialize (H2 o'). now rewrite <- app_assoc in H2.
  - intro H.
    specialize (IH (heap w) _ (mkWorld (proxy w) (S (heap w)) (settled w) (now w))
                   (H (heap w))).
    destruct (task (advance (k (heap w)) _)); cbn in *.
    + now rewrite <- app_assoc in IH.
    + destruct IH as [H1 H2]. split.
      * now rewrite <- app_assoc in H1.
      * intro o'. specialize (H2 o'). now rewrite <- app_assoc in H2.
  - rewrite app_nil_r. cbn. tauto.
Qed.

Lemma settle_holds {A : Type} (I : list Event -> MCPProxy -> Prop)
    (Q : Completion A -> list Event -> MCPProxy -> Prop)
    (os : list Outcome) :
  forall seg : Segment A,
    segment_holds I Q [] seg -> segment_holds I Q [] (settle seg os).
Proof.
  induction os as [|o os IH]; intros seg H; cbn; [exact H|].
  unfold segment_holds in H.
  destruct (task seg) as [c|c k] eqn:Et.
  - unfold segment_holds. now rewrite Et.
  - apply IH. destruct H as [_ H]. specialize (H o). cbn in H.
    apply (advance_holds _ _ _ _ (resumed (after seg))) in H.
    unfold segment_holds in *. cbn.
    destruct (task (advance (k o) (resumed (after seg)))); cbn in *.
    + now rewrite <- app_assoc in H.
    + destruct H as [H1 H2]. split.
      * now rewrite <- app_assoc in H1.
      * intro o'. specialize (H2 o').
        rewrite <- !app_assoc in H2. rewrite <- !app_assoc. exact H2.
Qed.

Lemma alone_holds {A : Type} (I : list Event -> MCPProxy -> Prop)
    (Q : Completion A -> list Event -> MCPProxy -> Prop)
    (m : M A) (w : World) (os : list Outcome) :
  holds I Q m [] (proxy w) -> segment_holds I Q [] (alone m w os).
Proof. intro H. apply settle_holds, advance_holds, H. Qed.

Section PoolAlone.

Variable config : ProxyConfig.
Variable stderrAccess : nat -> StderrAccess.

Lemma schedule_settle (os : list Outcome) :
  forall (seg : Segment CallToolResult) (hist : list Event),
    schedule config stderrAccess
             (mkPool (after seg) (hist ++ emitted seg) [task seg])
             (map (Settle 0) os)
    = mkPool (after (settle seg os)) (hist ++ emitted (settle seg os))
             [task (settle seg os)].
Proof.
  induction os as [|o os IH]; intros seg hist; cbn; [reflexivity|].
  destruct (task seg) as [c|c k] eqn:Et; cbn.
  - clear IH. rewrite Et.
    induction os as [|o' os IH]; cbn; [reflexivity | exact IH].
  - change (mkWorld (proxy (after seg)) (heap (after seg))
                    (S (settled (after seg))) (now (after seg)))
      with (resumed (after seg)).
    rewrite <- app_assoc.
    exact (IH (mkSegment (after (advance (k o) (resumed (after seg))))
                         (emitted seg ++ ECall c o
                            :: emitted (advance (k o) (resumed (after seg))))
                         (task (advance (k o) (resumed (after seg)))))
              hist).
Qed.

(** A single call in the task pool is the invocation on its own. *)
Lemma pool_alone (args : JsVal) (w : World) (hist : list Event)
    (os : list Outcome) :
  schedule config stderrAccess (mkPool w hist [])
           (Arrive args :: map (Settle 0) os)
  = mkPool (after (alone (handleRestartServer config stderrAccess args) w os))
           (hist ++ emitted (alone (handleRestartServer config stderrAccess args)
                                   w os))
           [task (alone (handleRestartServer config stderrAccess args) w os)].
Proof. unfold schedule. cbn [fold_left step tasks app]. apply schedule_settle. Qed.

End PoolAlone.

Transparent stopChildServer notifyCapabilityChanges mirrorChildCapabilities
  captureStderr.

Ltac holds_step :=
  match goal with
  | |- _ /\ _ => split
  | |- forall o : Outcome, _ => intros [?|?]; cbn
  | |- forall n : nat, _ => intro; cbn
  end.

Lemma captureStderr_holds (stderrAccess : nat -> StderrAccess)
    (I : list Event -> MCPProxy -> Prop)
    (Q : Completion unit -> list Event -> MCPProxy -> Prop)
    (tr : option nat) (evs : list Event) (p : MCPProxy) :
  (forall l, Q (Returned tt) (evs ++ map ELog l)%list p) ->
  holds I Q (captureStderr stderrAccess tr) evs p.
Proof.
  intro H. unfold captureStderr.
  destruct tr as [tr|]; [destruct (stderrAccess tr)|]; cbn;
    rewrite <- ?app_assoc;
    match goal with
    | |- Q _ (_ ++ [ELog ?a] ++ [ELog ?b])%list _ => apply (H [a; b])
    | |- Q _ (_ ++ [ELog ?a])%list _ => apply (H [a])
    end.
Qed.

(** *** The handler's list and the proxy's *)

(** Each method keeps [in_sync] at its awaits and at its end. *)
Lemma stopChildServer_in_sync (evs : list Event) (p : MCPProxy) :
  in_sync p ->
  holds synced (fun _ _ p' => in_sync p') stopChildServer evs p.
Proof.
  destruct p as [cc ct sd rip tools [thc tht] rh ph ch kh].
  unfold in_sync, synced, stopChildServer; cbn. intros [-> H2].
  destruct cc as [c|]; [|specialize (H2 eq_refl); subst tools];
    destruct ct as [tr|]; cbn; unfold in_sync; cbn;
    repeat holds_step; try reflexivity; try discriminate; auto.
Qed.

Lemma notifyCapabilityChanges_in_sync (evs : list Event) (p : MCPProxy) :
  in_sync p ->
  holds synced (fun c _ p' => c = Returned tt /\ in_sync p')
        notifyCapabilityChanges evs p.
Proof.
  intro H. unfold notifyCapabilityChanges, synced; cbn.
  repeat holds_step; auto.
Qed.

Lemma in_sync_tools (l : list Tool) (p : MCPProxy) :
  childClient p <> None \/ l = [] ->
  in_sync (handlers_updated (set_childTools l p)).
Proof.
  destruct p as [cc ct sd rip tools [thc tht] rh ph ch kh].
  unfold in_sync; cbn. intros [H| ->]; split; auto. intro; contradiction.
Qed.

Lemma mirrorChildCapabilities_in_sync (evs : list Event) (p : MCPProxy) :
  in_sync p ->
  holds synced (fun _ _ p' => in_sync p') mirrorChildCapabilities evs p.
Proof.
  intro H. unfold mirrorChildCapabilities. cbn.
  destruct (childClient p) as [c|] eqn:Ec; cbn; [|exact H].
  split; [exact H|].
  assert (Hm : forall l b, in_sync (set_restartInProgress b
                                      (handlers_updated (set_childTools l p)))).
  { intros l b. apply in_sync_flags, in_sync_tools. left. congruence. }
  intros [v|e]; cbn.
  - replace (restartInProgress p)
      with (restartInProgress (handlers_updated (set_childTools (tools_or_empty v) p)))
      by (destruct p; reflexivity).
    destruct (restartInProgress _) eqn:Er.
    + apply holds_try_catch, holds_bind.
      apply holds_weaken
        with (Q := fun c _ p' => c = Returned tt /\ in_sync p').
      * intros [[]|e] evs' p' [H1 H2]; [|discriminate]. cbn.
        now apply in_sync_flags.
      * apply notifyCapabilityChanges_in_sync, in_sync_tools. left. congruence.
    + cbn. apply in_sync_tools. left. congruence.
  - destruct (is_method_not_found e); cbn; [|exact H].
    destruct (restartInProgress p); cbn.
    + apply Hm.
    + apply in_sync_tools. now right.
Qed.

Opaque stopChildServer notifyCapabilityChanges mirrorChildCapabilities
  captureStderr.

Section AloneInSync.

Variable config : ProxyConfig.
Variable stderrAccess : nat -> StderrAccess.

Lemma startChildServer_in_sync (evs : list Event) (p : MCPProxy) :
  in_sync p ->
  holds synced (fun _ _ p' => in_sync p')
        (startChildServer config stderrAccess) evs p.
Proof.
  intro H. unfold startChildServer. apply holds_bind.
  apply holds_weaken with (Q := fun _ _ p' => in_sync p');
    [|now apply stopChildServer_in_sync].
  clear. intros [[]|e] evs p H; [|exact H]. cbn. intros t c.
  assert (H' : in_sync (set_childClient (Some c) (set_childTransport (Some t) p))).
  { destruct p as [cc ct sd rip tools [thc tht] rh ph ch kh].
    destruct H as [H1 H2]. split; [exact H1 | discriminate]. }
  split; [exact H'|]. intros [v|e]; cbn; [|exact H'].
  apply holds_bind, captureStderr_holds. intro l.
  apply holds_bind.
  apply holds_weaken with (Q := fun _ _ p' => in_sync p');
    [|now apply mirrorChildCapabilities_in_sync].
  intros [[]|e] evs' p' Hp; exact Hp.
Qed.

End AloneInSync.

Section AloneInSync2.

Variable config : ProxyConfig.
Variable stderrAccess : nat -> StderrAccess.

Lemma handleRestartServer_in_sync (args : JsVal) (evs : list Event)
    (p : MCPProxy) :
  in_sync p ->
  holds synced (fun _ _ p' => in_sync p')
        (handleRestartServer config stderrAccess args) evs p.
Proof.
  intro H. unfold handleRestartServer. apply holds_try_catch. cbn.
  apply holds_bind.
  apply holds_weaken with (Q := fun _ _ p' => in_sync p');
    [|now apply startChildServer_in_sync, in_sync_flags].
  intros [[]|e] evs' p' Hp; cbn; [exact Hp|]. now apply in_sync_flags.
Qed.

Lemma start_in_sync (evs : list Event) (p : MCPProxy) :
  in_sync p ->
  holds synced (fun _ _ p' => in_sync p') (start config stderrAccess) evs p.
Proof.
  intro H. unfold start. cbn. apply holds_bind.
  apply holds_weaken with (Q := fun _ _ p' => in_sync p');
    [|now apply startChildServer_in_sync].
  intros [[]|e] evs' p' Hp; cbn; [|exact Hp].
  intro n. split; [exact Hp|]. intros [v|e]; exact Hp.
Qed.

Lemma stop_in_sync (evs : list Event) (p : MCPProxy) :
  in_sync p -> holds synced (fun _ _ p' => in_sync p') stop evs p.
Proof.
  intro H. unfold stop. cbn. destruct (isShuttingDown p); cbn; [exact H|].
  apply holds_try_catch, holds_bind.
  apply holds_weaken with (Q := fun _ _ p' => in_sync p');
    [|now apply stopChildServer_in_sync, in_sync_flags].
  intros [[]|e] evs' p' Hp; cbn; [|exact Hp].
  split; [exact Hp|]. intros [v|e]; exact Hp.
Qed.

Lemma handleShutdown_in_sync (signal : string) (evs : list Event)
    (p : MCPProxy) :
  in_sync p ->
  holds synced (fun _ _ p' => in_sync p') (handleShutdown signal) evs p.
Proof.
  intro H. unfold handleShutdown. cbn. apply holds_bind.
  apply holds_weaken with (Q := fun _ _ p' => in_sync p');
    [|now apply stop_in_sync].
  intros [[]|e] evs' p' Hp; exact Hp.
Qed.

(** What holds at every await of a program holds of the world in which it
    stands, however many of its promises have settled. *)
Lemma alone_in_sync {A : Type} (m : M A) (w : World) (os : list Outcome) :
  holds synced (fun _ _ p' => in_sync p') m [] (proxy w) ->
  in_sync (proxy (after (alone m w os))).
Proof.
  intro H. apply alone_holds with (w := w) (os := os) in H.
  unfold segment_holds in H. destruct (task (alone m w os)); [exact H|].
  exact (proj1 H).
Qed.

Lemma in_sync_answers (w : World) : in_sync (proxy w) -> answers_from_cache w.
Proof. intros [H _] env. rewrite run_handleListTools, H. reflexivity. Qed.

End AloneInSync2.

(** *** The handler's list once the tool query is answered *)

Lemma unqueried_snoc (evs : list Event) (ev : Event) :
  unqueried evs -> (forall c o, ev <> ECall (ListTools c) o) ->
  unqueried (evs ++ [ev]).
Proof.
  intros H Hev c o Hin. apply in_app_or in Hin. destruct Hin as [Hin|[Hin|[]]].
  - exact (H c o Hin).
  - exact (Hev c o Hin).
Qed.

Lemma unqueried_logs (evs : list Event) (l : list LogEntry) :
  unqueried evs -> unqueried (evs ++ map ELog l).
Proof.
  intros H c o Hin. apply in_app_or in Hin. destruct Hin as [Hin|Hin].
  - exact (H c o Hin).
  - apply in_map_iff in Hin. destruct Hin as (x & Hx & _). discriminate.
Qed.

Lemma unqueried_fetched (evs : list Event) (p : MCPProxy) :
  unqueried evs -> fetched evs p.
Proof. intros H c v Hin. elim (H c _ Hin). Qed.

Lemma fetched_snoc (evs : list Event) (ev : Event) (p : MCPProxy) :
  fetched evs p -> (forall c v, ev <> ECall (ListTools c) (Resolved v)) ->
  fetched (evs ++ [ev]) p.
Proof.
  intros H Hev c v Hin. apply in_app_or in Hin. destruct Hin as [Hin|[Hin|[]]].
  - exact (H c v Hin).
  - elim (Hev c v Hin).
Qed.

Lemma fetched_proxy (evs : list Event) (p p' : MCPProxy) :
  toolHandler p' = toolHandler p -> fetched evs p -> fetched evs p'.
Proof. intros E H c v Hin. rewrite E. exact (H c v Hin). Qed.

Lemma fetched_query (evs : list Event) (p : MCPProxy) (c : nat)
    (v : option (list Tool)) :
  unqueried evs ->
  th_childTools (toolHandler p) = tools_or_empty v ->
  fetched (evs ++ [ECall (ListTools c) (Resolved v)]) p.
Proof.
  intros H E c' v' Hin. apply in_app_or in Hin. destruct Hin as [Hin|[Hin|[]]].
  - elim (H c' _ Hin).
  - injection Hin as _ <-. exact E.
Qed.

Ltac frame :=
  repeat first
    [ assumption
    | apply fetched_snoc; [|intros; discriminate]
    | apply unqueried_snoc; [|intros; discriminate]
    | apply unqueried_logs
    | apply unqueried_fetched ].

Transparent stopChildServer notifyCapabilityChanges mirrorChildCapabilities.

(** Up to the tool query no query is in the trace; from its answer on, the
    handler's list is that answer. *)
Lemma stopChildServer_unqueried (evs : list Event) (p : MCPProxy) :
  unqueried evs ->
  holds fetched (fun _ evs' _ => unqueried evs') stopChildServer evs p.
Proof.
  intro H. destruct p as [cc ct sd rip tools th rh ph ch kh].
  unfold stopChildServer; cbn.
  destruct cc as [c|]; destruct ct as [tr|]; cbn;
    repeat holds_step; frame.
Qed.

Lemma notifyCapabilityChanges_fetched (evs : list Event) (p : MCPProxy) :
  fetched evs p ->
  holds fetched (fun c evs' p' => c = Returned tt /\ fetched evs' p')
        notifyCapabilityChanges evs p.
Proof.
  intro H. unfold notifyCapabilityChanges; cbn.
  repeat holds_step; frame; try reflexivity.
Qed.

Lemma mirrorChildCapabilities_fetched (evs : list Event) (p : MCPProxy) :
  unqueried evs ->
  holds fetched (fun _ evs' p' => fetched evs' p')
        mirrorChildCapabilities evs p.
Proof.
  intro H. unfold mirrorChildCapabilities. cbn.
  destruct (childClient p) as [c|]; cbn; [|frame].
  split; [frame|]. intros [v|e]; cbn.
  - assert (Hf : fetched (evs ++ [ECall (ListTools c) (Resolved v)])
                         (handlers_updated (set_childTools (tools_or_empty v) p)))
      by (apply fetched_query; [exact H | destruct p; reflexivity]).
    replace (restartInProgress p)
      with (restartInProgress (handlers_updated (set_childTools (tools_or_empty v) p)))
      by (destruct p; reflexivity).
    destruct (restartInProgress _).
    + apply holds_try_catch, holds_bind.
      apply holds_weaken
        with (Q := fun c evs' p' => c = Returned tt /\ fetched evs' p').
      * intros [[]|e] evs' p' [H1 H2]; [|discriminate]. cbn.
        eapply fetched_proxy; [|exact H2]. destruct p'; reflexivity.
      * apply notifyCapabilityChanges_fetched. frame.
    + cbn. frame.
  - destruct (is_method_not_found e); cbn; [|frame].
    destruct (restartInProgress p); cbn; frame.
Qed.

Opaque stopChildServer notifyCapabilityChanges mirrorChildCapabilities.

Section AloneFetched.

Variable config : ProxyConfig.
Variable stderrAccess : nat -> StderrAccess.

Lemma startChildServer_fetched (evs : list Event) (p : MCPProxy) :
  unqueried evs ->
  holds fetched (fun _ evs' p' => fetched evs' p')
        (startChildServer config stderrAccess) evs p.
Proof.
  intro H. unfold startChildServer. apply holds_bind.
  apply holds_weaken with (Q := fun _ evs' _ => unqueried evs');
    [|now apply stopChildServer_unqueried].
  clear. intros [[]|e] evs p H; [|frame]. cbn. intros t c.
  split; [frame|]. intros [v|e]; cbn; [|frame].
  apply holds_bind, captureStderr_holds. intro l.
  apply holds_bind.
  apply holds_weaken with (Q := fun _ evs' p' => fetched evs' p');
    [|apply mirrorChildCapabilities_fetched; frame].
  intros [[]|e] evs' p' Hp; cbn; frame.
Qed.

Lemma handleRestartServer_fetched (args : JsVal) (p : MCPProxy) :
  holds fetched (fun _ evs' p' => fetched evs' p')
        (handleRestartServer config stderrAccess args) [] p.
Proof.
  unfold handleRestartServer. apply holds_try_catch. cbn.
  apply holds_bind.
  apply holds_weaken with (Q := fun _ evs' p' => fetched evs' p').
  - intros [[]|e] evs' p' Hp; cbn; [exact Hp|].
    apply fetched_snoc; [|intros; discriminate].
    eapply fetched_proxy; [|exact Hp]. destruct p'; reflexivity.
  - apply startChildServer_fetched. intros c o [H|[]]. discriminate.
Qed.

Lemma alone_fetched (args : JsVal) (w : World) (os : list Outcome) :
  fetched (emitted (alone (handleRestartServer config stderrAccess args) w os))
          (proxy (after (alone (handleRestartServer config stderrAccess args)
                               w os))).
Proof.
  pose proof (handleRestartServer_fetched args (proxy w)) as H.
  apply alone_holds with (w := w) (os := os) in H.
  unfold segment_holds in H. cbn [app] in H.
  destruct (task (alone _ w os)); [exact H|]. exact (proj1 H).
Qed.

End AloneFetched.

(** C4, as the code has it.  [list_tools] is always answered from the tool
    handler's own list, with no call to the child and no other effect: that
    list followed by the one synthetic [restart_server] descriptor.  When the
    calls of [start], [stop] and the restart tool run one after the other,
    the handler's list is the proxy's cached [childTools] between two calls
    and at every await inside a call (a shutdown signal included).  In a
    restart call that runs on its own the handler's list is what the new
    child returned from the moment its tool query is fulfilled; and after
    the call has reported success, [list_tools] gives the tools the new child
    advertised (none if the child has no tools/list) and the synthetic
    tool. *)
Theorem list_tools_merges_snapshot (config : ProxyConfig)
        (stderrAccess : nat -> StderrAccess) :
  (forall env w,
      run env handleListTools w =
        mkRun w [] (Returned (th_childTools (toolHandler (proxy w))
                                ++ [restart_server_tool])%list))
  /\ (forall w,
         reachable config stderrAccess w ->
         answers_from_cache w
         /\ forall os args signal,
              answers_from_cache (after (alone (start config stderrAccess) w os))
              /\ answers_from_cache (after (alone stop w os))
              /\ answers_from_cache (after (alone (handleShutdown signal) w os))
              /\ answers_from_cache
                   (after (alone (handleRestartServer config stderrAccess args)
                                 w os)))
  /\ (forall env args w os c v,
         In (ECall (ListTools c) (Resolved v))
            (emitted (alone (handleRestartServer config stderrAccess args) w os)) ->
         run env handleListTools
             (after (alone (handleRestartServer config stderrAccess args) w os))
         = mkRun (after (alone (handleRestartServer config stderrAccess args)
                               w os))
                 [] (Returned (tools_or_empty v ++ [restart_server_tool])%list))
  /\ (forall env env' args w o,
         (forall n c, fst (env n (ListTools c)) = o) ->
         let r := run env (handleRestartServer config stderrAccess args) w in
         completion r = Returned restart_success ->
         run env' handleListTools (final r) =
           mkRun (final r) []
                 (Returned (advertised o ++ [restart_server_tool])%list)).
Proof.
  split; [|split; [|split]].
  - intros env w. apply run_handleListTools.
  - intros w Hr. pose proof (reachable_in_sync Hr) as Hs.
    split; [now apply in_sync_answers|]. intros os args signal.
    split; [|split; [|split]]; apply in_sync_answers, alone_in_sync.
    + now apply start_in_sync.
    + now apply stop_in_sync.
    + now apply handleShutdown_in_sync.
    + now apply handleRestartServer_in_sync.
  - intros env args w os c v Hin. rewrite run_handleListTools.
    now rewrite (alone_fetched config stderrAccess args w os c v Hin).
  - intros env env' args w o Hl r. subst r.
    rewrite run_handleListTools, run_handleRestartServer.
    destruct (run_startChildServer config stderrAccess env (restarting w))
      as (n1 & n2 & w' & evs & E & Hp & _).
    cbv zeta in E, Hp. rewrite Hl in E, Hp. rewrite E.
    destruct (fst (env n1 (ClientConnect _ _))) as [vc|ec]; cbn in *;
      [|discriminate].
    destruct o as [v|e]; cbn in *.
    + intros _. rewrite Hp. reflexivity.
    + destruct (is_method_not_found e); cbn in *; [|discriminate].
      intros _. rewrite Hp. reflexivity.
Qed.

(** C4 fails as stated, when restart calls overlap.  In the first schedule a
    second call closes client 4 while the first call awaits that client's
    tool list; the answer arrives after the second call has emptied the
    handler's list and before its last reset of [childTools], which does not
    update the handlers; the second call then fails to connect.  Both calls
    have returned, the cached [childTools] is empty, and [list_tools] still
    lists the tool of the closed client.  In the second schedule the second
    call closes client 4 after its tool list was fetched: the first call
    reports success, and [list_tools] shows none of the tools its child
    advertised. *)
Lemma overlapping_restarts_stale_tools :
  outcomes Session.stale
  = [Some (Returned restart_success);
     Some (Returned (restart_failure "MCP error -32000: Connection closed"))]
  /\ In (ECall (ClientClose 4) Session.fulfilled) (history Session.stale)
  /\ In (ECall (ListTools 4) (Resolved (Some [Session.echo])))
        (history Session.stale)
  /\ childTools (proxy (world Session.stale)) = []
  /\ completion (run Session.env_ok handleListTools (world Session.stale))
     = Returned [Session.echo; restart_server_tool]
  /\ outcomes Session.emptied = [Some (Returned restart_success); None]
  /\ In (ECall (ListTools 4) (Resolved (Some [Session.echo])))
        (history Session.emptied)
  /\ completion (run Session.env_ok handleListTools (world Session.emptied))
     = Returned [restart_server_tool].
Proof. vm_compute. repeat split; auto 30. Qed.

(** ** List-changed notifications *)

Transparent mirrorChildCapabilities.


Opaque mirrorChildCapabilities.

Section StartOrder.

Variable config : ProxyConfig.
Variable stderrAccess : nat -> StderrAccess.



End StartOrder.


(** ** Restarts that overlap *)

(** C1, as the code has it: [handleRestartServer] sets [restartInProgress]
    without reading it, so a request is handled in the same way whether or
    not a restart is in progress when it arrives: it is never rejected on
    that ground, alone or in the task pool. *)
Theorem restart_is_not_guarded (config : ProxyConfig)
        (stderrAccess : nat -> StderrAccess) (args : JsVal) (b1 b2 : bool) :
  (forall env w,
      run env (handleRestartServer config stderrAccess args)
          (with_restartInProgress b1 w)
      = run env (handleRestartServer config stderrAccess args)
            (with_restartInProgress b2 w))
  /\ (forall w hist ts,
         step config stderrAccess
              (mkPool (with_restartInProgress b1 w) hist ts) (Arrive args)
         = step config stderrAccess
                (mkPool (with_restartInProgress b2 w) hist ts) (Arrive args)).
Proof.
  split.
  - intros env w. rewrite !run_handleRestartServer. reflexivity.
  - intros w hist ts. reflexivity.
Qed.

(** C1 fails as stated: a second [restart_server] call arrives while the
    first awaits the connect of the new child, with [restartInProgress] set.
    The second call is not rejected: it closes the client the first call is
    connecting, and reports success.  The first call, which alone reports
    success, now reports a failure, whether its connect is rejected because
    the connection was closed or is still fulfilled; and no list-changed
    notification is sent for either restart, since the failure of the first
    has reset the flag. *)
Lemma second_restart_interleaves :
  restartInProgress (proxy (world Session.before)) = true
  /\ outcomes Session.before = [None]
  /\ outcomes (Session.after (Rejected Session.connection_closed)) =
       [Some (Returned (restart_failure "MCP error -32000: Connection closed"));
        Some (Returned restart_success)]
  /\ outcomes (Session.after Session.fulfilled) =
       [Some (Returned (restart_failure "Child client not connected"));
        Some (Returned restart_success)]
  /\ attempted (history (Session.after (Rejected Session.connection_closed))) = []
  /\ attempted (history (Session.after Session.fulfilled)) = []
  /\ completion (Session.restart Session.env_ok) = Returned restart_success.
Proof. vm_compute. repeat split. Qed.


(** A restart of a child without tools/list reports success and sends no
    notification at all. *)
Lemma restart_without_tools_list_is_silent :
  completion (Session.restart Session.env_no_tools_list)
  = Returned restart_success
  /\ attempted (events (Session.restart Session.env_no_tools_list)) = [].
Proof. vm_compute. repeat split. Qed.

(** ** The restart policy of the configuration *)

(** Two configurations with the same command, arguments and environment give
    the same programs: [autoRestart], [maxRestarts], [restartDelay] and
    [restartTimeout] are never read. *)
Lemma restart_policy_is_not_read (c1 c2 : ProxyConfig)
      (stderrAccess : nat -> StderrAccess) (args : JsVal) :
  childCommand c1 = childCommand c2 ->
  childArgs c1 = childArgs c2 ->
  environment c1 = environment c2 ->
  startChildServer c1 stderrAccess = startChildServer c2 stderrAccess
  /\ handleRestartServer c1 stderrAccess args
     = handleRestartServer c2 stderrAccess args
  /\ start c1 stderrAccess = start c2 stderrAccess.
Proof.
  intros H1 H2 H3.
  unfold start, handleRestartServer, startChildServer.
  rewrite H1, H2, H3. repeat split.
Qed.

(** No code runs when the child ends on its own, whatever the configuration
    says. *)
Lemma child_exit_runs_nothing (config : ProxyConfig)
      (stderrAccess : nat -> StderrAccess) (env : Env) (code : Z) (w : World) :
  react config stderrAccess env (ChildExit code) w = mkRun w [] (Returned tt).
Proof. reflexivity. Qed.

(** C2 at a failing input: [autoRestart] is set, three restarts are allowed,
    and the connected child ends on its own.  No code of the proxy is
    registered for that: nothing is sent or constructed, and the proxy still
    holds the client of the child that is gone. *)
Theorem child_exit_is_not_handled :
  autoRestart Session.config = true
  /\ maxRestarts Session.config = 3
  /\ listener Session.config Session.stderrAccess (ChildExit 1) = None
  /\ react Session.config Session.stderrAccess Session.env_ok (ChildExit 1)
           Session.w_connected
     = mkRun Session.w_connected [] (Returned tt)
  /\ childClient (proxy Session.w_connected) = Some 1.
Proof. vm_compute. repeat split. Qed.

(** C7 at a failing input: [restartTimeout] is 30 seconds and the new child
    takes 45 seconds to connect.  The restart is not aborted: it reports
    success 45006 ms after the call and leaves the new client in place. *)
Theorem restart_outlives_restartTimeout :
  restartTimeout Session.config = 30000%N
  /\ completion (Session.restart Session.env_slow_connect)
     = Returned restart_success
  /\ (now (final (Session.restart Session.env_slow_connect))
      - now Session.w_connected = 45006)%N
  /\ (restartTimeout Session.config
      < now (final (Session.restart Session.env_slow_connect))
        - now Session.w_connected)%N
  /\ childClient (proxy (final (Session.restart Session.env_slow_connect)))
     = Some 4.
Proof. vm_compute. repeat split. Qed.

(** ** The theorems at work in the session *)


(** The first start with a child that has no tools/list. *)
Lemma tool_query_failure_policy_witness :
  fulfils Session.env_no_tools_list is_connect
  /\ (forall n c, fst (Session.env_no_tools_list n (ListTools c))
                  = Rejected Session.method_not_found)
  /\ completion (Session.first_child_start Session.env_no_tools_list)
     = Returned tt
  /\ childTools (proxy (final (Session.first_child_start
                                 Session.env_no_tools_list))) = []
  /\ th_childTools (toolHandler (proxy (final (Session.first_child_start
                                                 Session.env_no_tools_list))))
     = []
  /\ childClient (proxy (final (Session.first_child_start
                                  Session.env_no_tools_list))) = Some 1
  /\ th_childClient (toolHandler (proxy (final (Session.first_child_start
                                                  Session.env_no_tools_list))))
     = Some 1
  /\ completion (Session.first_restart Session.env_no_tools_list)
     = Returned restart_success
  /\ completion (Session.first_start Session.env_no_tools_list) = Returned tt.
Proof.
  assert (H1 : fulfils Session.env_no_tools_list is_connect)
    by (intros n [] H; try contradiction; reflexivity).
  assert (H2 : forall n c, fst (Session.env_no_tools_list n (ListTools c))
                           = Rejected Session.method_not_found)
    by (intros; reflexivity).
  split; [exact H1|]. split; [exact H2|].
  exact (tool_query_failure_policy Session.config Session.stderrAccess
           JUndefined Session.w_constructed H1 H2).
Defined.

(** Listing the tools of the connected proxy: before a restart, while the
    restart stands at the send of tools/list_changed, and after it. *)
Lemma list_tools_merges_snapshot_witness :
  reachable Session.config Session.stderrAccess Session.w_connected
  /\ answers_from_cache Session.w_connected
  /\ answers_from_cache
       (after (alone (handleRestartServer Session.config Session.stderrAccess
                                          JUndefined)
                     Session.w_connected Session.tools_fetched))
  /\ In (ECall (ListTools 4) (Resolved (Some [Session.echo])))
        (emitted (alone (handleRestartServer Session.config Session.stderrAccess
                                             JUndefined)
                        Session.w_connected Session.tools_fetched))
  /\ run Session.env_ok handleListTools
         (after (alone (handleRestartServer Session.config Session.stderrAccess
                                            JUndefined)
                       Session.w_connected Session.tools_fetched))
     = mkRun (after (alone (handleRestartServer Session.config
                                                Session.stderrAccess JUndefined)
                           Session.w_connected Session.tools_fetched))
             [] (Returned [Session.echo; restart_server_tool])
  /\ (forall n c, fst (Session.env_ok n (ListTools c))
                  = Resolved (Some [Session.echo]))
  /\ completion (Session.restart Session.env_ok) = Returned restart_success
  /\ run Session.env_ok handleListTools (final (Session.restart Session.env_ok))
     = mkRun (final (Session.restart Session.env_ok)) []
             (Returned [Session.echo; restart_server_tool]).
Proof.
  assert (H1 : reachable Session.config Session.stderrAccess Session.w_connected)
    by (apply reach_start, reach_constructed).
  assert (H2 : In (ECall (ListTools 4) (Resolved (Some [Session.echo])))
                  (emitted (alone (handleRestartServer Session.config
                                     Session.stderrAccess JUndefined)
                                  Session.w_connected Session.tools_fetched)))
    by (vm_compute; auto 30).
  assert (H3 : forall n c, fst (Session.env_ok n (ListTools c))
                           = Resolved (Some [Session.echo]))
    by (intros; reflexivity).
  assert (H4 : completion (Session.restart Session.env_ok)
               = Returned restart_success)
    by (vm_compute; reflexivity).
  destruct (list_tools_merges_snapshot Session.config Session.stderrAccess)
    as (_ & L2 & L3 & L4).
  split; [exact H1|]. split; [exact (proj1 (L2 _ H1))|].
  split; [exact (proj2 (proj2 (proj2 (proj2 (L2 _ H1) Session.tools_fetched
                                            JUndefined "SIGINT"))))|].
  split; [exact H2|].
  split; [exact (L3 Session.env_ok JUndefined Session.w_connected
                    Session.tools_fetched 4 (Some [Session.echo]) H2)|].
  split; [exact H3|]. split; [exact H4|].
  exact (L4 Session.env_ok Session.env_ok JUndefined Session.w_connected
            (Resolved (Some [Session.echo])) H3 H4).
Defined.


(** * Further properties of the proxy *)

(** ** Calls in a trace *)

Arguments calls : simpl never.
Arguments constructions : simpl never.

Lemma calls_app (l1 l2 : list Event) :
  calls (l1 ++ l2) = (calls l1 ++ calls l2)%list.
Proof. apply flat_map_app. Qed.

Lemma constructions_app (l1 l2 : list Event) :
  constructions (l1 ++ l2) = (constructions l1 ++ constructions l2)%list.
Proof. apply flat_map_app. Qed.

Lemma calls_log (l : LogEntry) (evs : list Event) :
  calls (ELog l :: evs) = calls evs
  /\ constructions (ELog l :: evs) = constructions evs.
Proof. split; reflexivity. Qed.

Lemma calls_nil : calls [] = [] /\ constructions [] = [].
Proof. split; reflexivity. Qed.

Lemma calls_new (o : ObjKind) (n : nat) (evs : list Event) :
  calls (ENew o n :: evs) = calls evs
  /\ constructions (ENew o n :: evs) = o :: constructions evs.
Proof. split; reflexivity. Qed.

Lemma calls_call (c : Call) (o : Outcome) (evs : list Event) :
  calls (ECall c o :: evs) = c :: calls evs
  /\ constructions (ECall c o :: evs) = constructions evs.
Proof. split; reflexivity. Qed.

Ltac calls_simpl :=
  repeat (progress
            (rewrite ?calls_app, ?constructions_app,
               ?(fun l evs => proj1 (calls_log l evs)),
               ?(fun l evs => proj2 (calls_log l evs)),
               ?(fun o n evs => proj1 (calls_new o n evs)),
               ?(fun o n evs => proj2 (calls_new o n evs)),
               ?(fun c o evs => proj1 (calls_call c o evs)),
               ?(fun c o evs => proj2 (calls_call c o evs)),
               ?(proj1 calls_nil), ?(proj2 calls_nil), ?app_nil_r;
             cbn [app])).

Lemma heap_grows {A : Type} (env : Env) (m : M A) (w : World) :
  heap w <= heap (final (run env m w)).
Proof.
  revert w; induction m as [a|e|k IH|p k IH|l k IH|o k IH|c k IH]; intro w;
    simpl; auto.
  - apply (IH (mkWorld p (heap w) (settled w) (now w))).
  - specialize (IH (heap w) (mkWorld (proxy w) (S (heap w)) (settled w) (now w))).
    simpl in IH. lia.
  - apply (IH _ (mkWorld (proxy w) (heap w) (S (settled w)) _)).
Qed.

Transparent stopChildServer notifyCapabilityChanges captureStderr stopped.

(** [stopChildServer] closes the client, then the transport, of the endpoint
    the proxy holds, and constructs nothing. *)
Lemma stopChildServer_calls (env : Env) (w : World) :
  calls (events (run env stopChildServer w)) = old_closes (proxy w)
  /\ constructions (events (run env stopChildServer w)) = [].
Proof.
  destruct w as [p h s t].
  destruct p as [cc ct sd rip tools th rh ph ch kh].
  unfold stopChildServer, old_closes; simpl.
  destruct cc as [c|]; destruct ct as [tr|]; simpl;
    repeat match goal with
           | |- context [env ?n ?c] =>
               destruct (env n c) as [[?|?] ?]; simpl
           end;
    split; reflexivity.
Qed.

Lemma notifyCapabilityChanges_calls (env : Env) (w : World) :
  (exists k, calls (events (run env notifyCapabilityChanges w))
             = map ServerNotification (firstn k list_changed))
  /\ constructions (events (run env notifyCapabilityChanges w)) = [].
Proof.
  destruct w as [p h s t].
  unfold notifyCapabilityChanges; simpl.
  destruct (env s (ServerNotification TOOLS_LIST_CHANGED)) as [[v1|e1] d1];
    simpl; [|split; [now exists 1|reflexivity]].
  destruct (env (S s) (ServerNotification PROMPTS_LIST_CHANGED)) as [[v2|e2] d2];
    simpl; [|split; [now exists 2|reflexivity]].
  destruct (env (S (S s)) (ServerNotification RESOURCES_LIST_CHANGED))
    as [[v3|e3] d3]; simpl; split; try reflexivity; now exists 3.
Qed.

Lemma captureStderr_calls (stderrAccess : nat -> StderrAccess) (env : Env)
      (tr : option nat) (w : World) :
  calls (events (run env (captureStderr stderrAccess tr) w)) = []
  /\ constructions (events (run env (captureStderr stderrAccess tr) w)) = [].
Proof.
  unfold captureStderr.
  destruct tr as [tr|]; [destruct (stderrAccess tr)|]; cbn; split; reflexivity.
Qed.

Opaque stopChildServer notifyCapabilityChanges captureStderr stopped.
Transparent mirrorChildCapabilities.

(** [mirrorChildCapabilities] asks the current client for its tools and then
    sends at most a prefix of the three notifications. *)
Lemma mirrorChildCapabilities_calls (env : Env) (w : World) (c : nat) :
  childClient (proxy w) = Some c ->
  (exists k, calls (events (run env mirrorChildCapabilities w))
             = ListTools c :: map ServerNotification (firstn k list_changed))
  /\ constructions (events (run env mirrorChildCapabilities w)) = [].
Proof.
  destruct w as [p h s t].
  destruct p as [cc ct sd rip tools th rh ph ch kh]; simpl.
  intros ->. unfold mirrorChildCapabilities; cbn.
  destruct (env s (ListTools c)) as [[v|e] d]; cbn.
  - destruct rip; cbn; [|split; [now exists 0|reflexivity]].
    rewrite run_try_catch, run_bind.
    match goal with
    | |- context [run env notifyCapabilityChanges ?w0] =>
        destruct (notifyCapabilityChanges_calls env w0) as [[k Hk] Hn];
        destruct (run_notifyCapabilityChanges env w0)
          as (w' & evs & R & _)
    end.
    rewrite R in *. unfold and_then, or_else, emit.
    cbn [final events completion] in *. cbn.
    rewrite app_nil_r.
    split; [exists k; rewrite <- Hk|rewrite <- Hn]; reflexivity.
  - destruct (is_method_not_found e); cbn.
    + destruct rip; cbn; (split; [now exists 0|reflexivity]).
    + split; [now exists 0|reflexivity].
Qed.

Opaque mirrorChildCapabilities.

(** ** The calls of a start, in order *)

Section StartCalls.

Variable config : ProxyConfig.
Variable stderrAccess : nat -> StderrAccess.

Lemma startChildServer_calls (env : Env) (w : World) :
  exists n k,
    let r := run env (startChildServer config stderrAccess) w in
    let connect := fst (env n (ClientConnect (S (heap w)) (heap w))) in
    calls (events r)
    = (old_closes (proxy w)
       ++ ClientConnect (S (heap w)) (heap w)
          :: (if resolved connect
              then ListTools (S (heap w))
                   :: map ServerNotification (firstn k list_changed)
              else []))%list
    /\ constructions (events r)
       = [StdioClientTransport (childCommand config) (childArgs config)
                               (environment config); Client]
    /\ (forall e, connect = Rejected e -> completion r = Threw e).
Proof.
  unfold startChildServer. rewrite run_bind.
  destruct (stopChildServer_calls env w) as [Hc1 Hn1].
  destruct (run_stopChildServer env w) as (w1 & evs1 & E1 & Hp1 & Hh1 & _).
  rewrite E1 in *. cbn [events] in Hc1, Hn1.
  unfold and_then; cbn.
  destruct w1 as [p1 h1 s1 t1]; cbn in *. subst p1 h1.
  exists s1.
  destruct (env s1 (ClientConnect (S (heap w)) (heap w))) as [[vc|ec] dc] eqn:Ec;
    cbn.
  2:{ exists 0. rewrite calls_app, constructions_app, Hc1, Hn1.
      split; [reflexivity|]. split; [reflexivity|].
      intros e [= ->]. reflexivity. }
  rewrite run_bind.
  match goal with
  | |- context [run env (captureStderr stderrAccess ?tr) ?w0] =>
      destruct (captureStderr_calls stderrAccess env tr w0) as [Hc2 Hn2];
      destruct (run_captureStderr stderrAccess env tr w0) as (evs2 & E2 & _)
  end.
  rewrite E2 in *. cbn [events] in Hc2, Hn2.
  unfold and_then; cbn. rewrite run_bind.
  match goal with
  | |- context [run env mirrorChildCapabilities ?w0] =>
      destruct (@mirrorChildCapabilities_calls env w0 (S (heap w)) eq_refl)
        as [[k Hc3] Hn3];
      destruct (run env mirrorChildCapabilities w0) as [w3 evs3 [[]|e3]]
  end; cbn [events] in Hc3, Hn3; unfold and_then; cbn; exists k;
    rewrite !calls_app, !constructions_app, Hc1, Hn1;
    (split; [|split; [|intros e; discriminate]]).
  - change (calls (?a :: ?b :: ?c :: ?d :: ?l)) with
      (ClientConnect (S (heap w)) (heap w) :: calls l).
    calls_simpl. rewrite Hc2, Hc3. reflexivity.
  - change (constructions (?a :: ?b :: ?c :: ?d :: ?l)) with
      (StdioClientTransport (childCommand config) (childArgs config)
                            (environment config) :: Client :: constructions l).
    calls_simpl. rewrite Hn2, Hn3. reflexivity.
  - change (calls (?a :: ?b :: ?c :: ?d :: ?l)) with
      (ClientConnect (S (heap w)) (heap w) :: calls l).
    calls_simpl. rewrite Hc2, Hc3. reflexivity.
  - change (constructions (?a :: ?b :: ?c :: ?d :: ?l)) with
      (StdioClientTransport (childCommand config) (childArgs config)
                            (environment config) :: Client :: constructions l).
    calls_simpl. rewrite Hn2, Hn3. reflexivity.
Qed.

End StartCalls.

(** ** The proxy between two calls *)

Transparent stopped.

Lemma stopped_handler_clients (p : MCPProxy) (v : option nat) :
  handler_clients p = repeat v 5 ->
  v = None \/ v = childClient p ->
  handler_clients (stopped p) = repeat None 5.
Proof.
  destruct p as [[c|] [t|] sd rip tools [thc tht] rh ph ch kh];
    unfold handler_clients; cbn; intros H Hv;
    injection H as H1 H2 H3 H4 H5; subst; destruct Hv; subst; reflexivity.
Qed.

Opaque stopped.

Lemma start_proxy_endpoint (sc : StartOutcome) (p : MCPProxy) (h : nat) :
  childClient (start_proxy sc (connecting p h)) = Some (S h)
  /\ childTransport (start_proxy sc (connecting p h)) = Some h
  /\ isShuttingDown (start_proxy sc (connecting p h)) = isShuttingDown p.
Proof.
  destruct (stopped_flags p) as [Hs _].
  destruct sc; cbn; rewrite Hs; repeat split.
Qed.

Lemma start_proxy_handlers (sc : StartOutcome) (p : MCPProxy) (h : nat) :
  handler_clients (stopped p) = repeat None 5 ->
  handler_clients (start_proxy sc (connecting p h))
  = repeat (match start_completion sc with
            | Returned _ => Some (S h)
            | Threw _ => None
            end) 5.
Proof.
  intro H. destruct sc; cbn; try reflexivity; exact H.
Qed.

Lemma start_proxy_flag (sc : StartOutcome) (p : MCPProxy) (h : nat) :
  restartInProgress p = false ->
  restartInProgress (start_proxy sc (connecting p h)) = false.
Proof.
  intro H. destruct (stopped_flags p) as [_ Hr].
  destruct sc; cbn; try reflexivity; now rewrite Hr.
Qed.

Lemma endpoint_settled_start_proxy (sc : StartOutcome) (p : MCPProxy)
      (h h' : nat) :
  endpoint_settled p h -> S (S h) <= h' ->
  endpoint_settled (start_proxy sc (connecting p h)) h'.
Proof.
  intros ((v & Hv & Hc) & _ & _) Hh.
  pose proof (@stopped_handler_clients _ _ Hv Hc) as Hs.
  destruct (start_proxy_endpoint sc p h) as (Ec & Et & _).
  unfold endpoint_settled. rewrite Ec, Et. split.
  - eexists. split; [apply start_proxy_handlers, Hs|].
    destruct (start_completion sc); auto.
  - split; intros x [= <-]; lia.
Qed.

Lemma endpoint_settled_stopped (p : MCPProxy) (h h' : nat) :
  endpoint_settled p h -> endpoint_settled (stopped p) h'.
Proof.
  intros ((v & Hv & Hc) & _ & _).
  pose proof (@stopped_handler_clients _ _ Hv Hc) as Hs.
  destruct (stopped_disconnected p) as [Ec Et].
  unfold endpoint_settled. rewrite Ec, Et. split.
  - exists None. auto.
  - split; intros x; discriminate.
Qed.

Section AtRest.

Variable config : ProxyConfig.
Variable stderrAccess : nat -> StderrAccess.

Lemma run_start_heap (env : Env) (w : World) :
  S (S (heap w)) <= heap (final (run env (start config stderrAccess) w)).
Proof.
  unfold start. cbn. rewrite run_bind.
  destruct (run_startChildServer config stderrAccess env w)
    as (n1 & n2 & w' & evs & E & _ & Hh & _).
  cbv zeta in E. rewrite E. unfold and_then. cbn [completion final].
  destruct (start_completion _) as [[]|e]; cbn [final]; [|lia].
  rewrite <- Hh. apply heap_grows.
Qed.

(** Between two method calls the proxy is at rest. *)
Lemma reachable_at_rest (w : World) :
  reachable config stderrAccess w -> at_rest w.
Proof.
  induction 1 as [|env w _ [Hf He]|env args w _ [Hf He]|env w _ [Hf He]].
  - split; [reflexivity|]. split; [exists None; auto|].
    split; intros x; discriminate.
  - destruct (run_startChildServer config stderrAccess env w)
      as (n1 & n2 & w' & evs & E & Hp & _).
    cbv zeta in E, Hp.
    destruct (run_start config stderrAccess env w) as (Hq & _).
    rewrite E in Hq. cbn [final] in Hq. rewrite Hp in Hq.
    unfold at_rest. rewrite Hq. split.
    + now apply start_proxy_flag.
    + apply endpoint_settled_start_proxy; [exact He|apply run_start_heap].
  - rewrite run_handleRestartServer.
    destruct (run_startChildServer config stderrAccess env (restarting w))
      as (n1 & n2 & w' & evs & E & Hp & Hh & _).
    cbv zeta in E, Hp. rewrite E. cbn [completion final].
    assert (Hs : endpoint_settled (proxy w') (heap w')).
    { rewrite Hp, Hh. apply endpoint_settled_start_proxy; [exact He|].
      cbn. lia. }
    destruct (start_outcome _ _); cbn; split; try reflexivity; try exact Hs;
      rewrite Hp; reflexivity.
  - destruct (isShuttingDown (proxy w)) eqn:Hsd.
    + rewrite run_stop_shutting_down by exact Hsd. now split.
    + destruct (run_stop_first env w Hsd) as [_ Hp].
      unfold at_rest. rewrite Hp. split.
      * destruct (stopped_flags (set_isShuttingDown true (proxy w))) as [_ ->].
        exact Hf.
      * apply endpoint_settled_stopped with (h := heap w). exact He.
Qed.

End AtRest.

(** ** What a restart leaves *)

Section AfterRestart.

Variable config : ProxyConfig.
Variable stderrAccess : nat -> StderrAccess.

Lemma restart_final_proxy (env : Env) (args : JsVal) (w : World) :
  exists sc,
    let r := run env (handleRestartServer config stderrAccess args) w in
    completion r = Returned (match start_completion sc with
                             | Returned _ => restart_success
                             | Threw e => restart_failure (error_message e)
                             end)
    /\ childClient (proxy (final r)) = Some (S (heap w))
    /\ childTransport (proxy (final r)) = Some (heap w)
    /\ isShuttingDown (proxy (final r)) = isShuttingDown (proxy w)
    /\ heap (final r) = S (S (heap w))
    /\ (endpoint_settled (proxy w) (heap w) ->
        handler_clients (proxy (final r))
        = repeat (match start_completion sc with
                  | Returned _ => Some (S (heap w))
                  | Threw _ => None
                  end) 5).
Proof.
  destruct (run_startChildServer config stderrAccess env (restarting w))
    as (n1 & n2 & w' & evs & E & Hp & Hh & _).
  cbv zeta in E, Hp.
  exists (start_outcome
            (fst (env n1 (ClientConnect (S (heap w)) (heap w))))
            (fst (env n2 (ListTools (S (heap w)))))).
  cbv zeta. rewrite run_handleRestartServer, E.
  cbn [completion final] in *.
  destruct (start_proxy_endpoint
              (start_outcome
                 (fst (env n1 (ClientConnect (S (heap w)) (heap w))))
                 (fst (env n2 (ListTools (S (heap w))))))
              (proxy (restarting w)) (heap w)) as (Ec & Et & Es).
  pose proof (@start_proxy_handlers
                (start_outcome
                   (fst (env n1 (ClientConnect (S (heap w)) (heap w))))
                   (fst (env n2 (ListTools (S (heap w))))))
                (proxy (restarting w)) (heap w)) as Hl.
  change (heap (restarting w)) with (heap w) in Hp.
  rewrite <- Hp in Ec, Et, Es, Hl.
  destruct (start_completion _) as [[]|e];
    cbn [completion final proxy heap];
    (split; [reflexivity|]); repeat split; auto;
    intros ((v & Hv & Hc) & _); apply Hl;
    apply (@stopped_handler_clients (proxy (restarting w)) v Hv Hc).
Qed.

End AfterRestart.

Section Lifecycle.

Variable config : ProxyConfig.
Variable stderrAccess : nat -> StderrAccess.

(** A restart never keeps the old child: whether the call reports success or
    failure, the proxy afterwards holds the client and the transport that
    this call constructed, and they are not the ones it held before. *)
Theorem restart_replaces_endpoint (env : Env) (args : JsVal) (w : World) :
  reachable config stderrAccess w ->
  let p' := proxy (final (run env (handleRestartServer config stderrAccess args) w)) in
  childClient p' = Some (S (heap w))
  /\ childTransport p' = Some (heap w)
  /\ childClient p' <> childClient (proxy w)
  /\ childTransport p' <> childTransport (proxy w).
Proof.
  intros Hr p'. subst p'.
  destruct (reachable_at_rest Hr) as (_ & _ & Hc & Ht).
  destruct (restart_final_proxy config stderrAccess env args w)
    as (sc & _ & Ec & Et & _).
  cbv zeta in Ec, Et. rewrite Ec, Et. repeat split.
  - intro H. symmetry in H. apply Hc in H. lia.
  - intro H. symmetry in H. apply Ht in H. lia.
Qed.

(** After a restart that reports success the five handlers hold the new
    client; after one that reports a failure they hold none, although the
    proxy itself holds the new, unconnected client. *)
Theorem handlers_after_restart (env : Env) (args : JsVal) (w : World) :
  reachable config stderrAccess w ->
  let r := run env (handleRestartServer config stderrAccess args) w in
  (completion r = Returned restart_success ->
   handler_clients (proxy (final r)) = repeat (childClient (proxy (final r))) 5)
  /\ (completion r <> Returned restart_success ->
      handler_clients (proxy (final r)) = repeat None 5
      /\ childClient (proxy (final r)) = Some (S (heap w))).
Proof.
  intros Hr r. subst r.
  destruct (reachable_at_rest Hr) as (_ & He).
  destruct (restart_final_proxy config stderrAccess env args w)
    as (sc & Hc & Ec & _ & _ & _ & Hl).
  cbv zeta in Hc, Ec, Hl. specialize (Hl He). rewrite Hc, Ec, Hl.
  destruct (start_completion sc) as [[]|e]; split; intro H;
    try reflexivity; try discriminate; try (now elim H).
  split; reflexivity.
Qed.

(** Between two method calls no handler holds a client of an earlier child:
    each holds none or the one the proxy holds. *)
Theorem handlers_never_stale (w : World) (h : option nat) :
  reachable config stderrAccess w ->
  In h (handler_clients (proxy w)) ->
  h = None \/ h = childClient (proxy w).
Proof.
  intros Hr Hin.
  destruct (reachable_at_rest Hr) as (_ & (v & Hv & Hc) & _).
  rewrite Hv in Hin. apply repeat_spec in Hin. now subst.
Qed.

End Lifecycle.

Lemma w_connected_reachable :
  reachable Session.config Session.stderrAccess Session.w_connected.
Proof. apply reach_start, reach_constructed. Qed.

(** Witness: a restart of the connected proxy of the session. *)
Lemma restart_replaces_endpoint_witness :
  reachable Session.config Session.stderrAccess Session.w_connected
  /\ childClient (proxy (final (Session.restart Session.env_ok)))
     = Some (S (heap Session.w_connected))
  /\ childTransport (proxy (final (Session.restart Session.env_ok)))
     = Some (heap Session.w_connected)
  /\ childClient (proxy (final (Session.restart Session.env_ok)))
     <> childClient (proxy Session.w_connected)
  /\ childTransport (proxy (final (Session.restart Session.env_ok)))
     <> childTransport (proxy Session.w_connected).
Proof.
  split; [exact w_connected_reachable|].
  exact (@restart_replaces_endpoint Session.config Session.stderrAccess
           Session.env_ok JUndefined Session.w_connected
           w_connected_reachable).
Defined.

(** Witness: the same restart, which reports success. *)
Lemma handlers_after_restart_witness :
  reachable Session.config Session.stderrAccess Session.w_connected
  /\ completion (Session.restart Session.env_ok) = Returned restart_success
  /\ handler_clients (proxy (final (Session.restart Session.env_ok)))
     = repeat (childClient (proxy (final (Session.restart Session.env_ok)))) 5.
Proof.
  split; [exact w_connected_reachable|].
  split; [reflexivity|].
  exact (proj1 (@handlers_after_restart Session.config Session.stderrAccess
                  Session.env_ok JUndefined Session.w_connected
                  w_connected_reachable) eq_refl).
Defined.

(** Witness: the tool handler of the connected proxy. *)
Lemma handlers_never_stale_witness :
  reachable Session.config Session.stderrAccess Session.w_connected
  /\ In (th_childClient (toolHandler (proxy Session.w_connected)))
        (handler_clients (proxy Session.w_connected))
  /\ (th_childClient (toolHandler (proxy Session.w_connected)) = None
      \/ th_childClient (toolHandler (proxy Session.w_connected))
         = childClient (proxy Session.w_connected)).
Proof.
  assert (Hin : In (th_childClient (toolHandler (proxy Session.w_connected)))
                   (handler_clients (proxy Session.w_connected)))
    by (left; reflexivity).
  split; [exact w_connected_reachable|]. split; [exact Hin|].
  exact (@handlers_never_stale Session.config Session.stderrAccess
           Session.w_connected _ w_connected_reachable Hin).
Defined.

(** ** Shutting down *)

Lemma stop_calls (env : Env) (w : World) :
  isShuttingDown (proxy w) = false ->
  calls (events (run env stop w)) = (old_closes (proxy w) ++ [ServerClose])%list
  /\ constructions (events (run env stop w)) = [].
Proof.
  intro H. destruct w as [p h s t]; simpl in H.
  unfold stop; cbn. rewrite H. unfold emit; cbn.
  rewrite run_try_catch, run_bind.
  match goal with
  | |- context [run env stopChildServer ?w0] =>
      destruct (stopChildServer_calls env w0) as [Hc Hn];
      destruct (run_stopChildServer env w0) as (w' & evs & E & _)
  end.
  rewrite E in *. cbn [events] in Hc, Hn.
  unfold and_then, or_else; cbn.
  destruct (env (settled w') ServerClose) as [[v|e] dt]; cbn;
    rewrite ?(proj1 (calls_log _ _)), ?(proj2 (calls_log _ _));
    calls_simpl; rewrite ?Hc, ?Hn; split; reflexivity.
Qed.

Opaque stop.


(** ** The order of the calls *)

Section CallOrder.

Variable config : ProxyConfig.
Variable stderrAccess : nat -> StderrAccess.

Lemma handleRestartServer_calls (env : Env) (args : JsVal) (w : World) :
  exists n k,
    let r := run env (handleRestartServer config stderrAccess args) w in
    let connect := fst (env n (ClientConnect (S (heap w)) (heap w))) in
    calls (events r)
    = (old_closes (proxy w)
       ++ ClientConnect (S (heap w)) (heap w)
          :: (if resolved connect
              then ListTools (S (heap w))
                   :: map ServerNotification (firstn k list_changed)
              else []))%list
    /\ constructions (events r)
       = [StdioClientTransport (childCommand config) (childArgs config)
                               (environment config); Client]
    /\ (forall e, connect = Rejected e ->
                  completion r = Returned (restart_failure (error_message e))).
Proof.
  destruct (startChildServer_calls config stderrAccess env (restarting w))
    as (n & k & Hc & Hn & Hf).
  exists n, k. cbv zeta in *. rewrite run_handleRestartServer.
  change (heap (restarting w)) with (heap w) in *.
  change (old_closes (proxy (restarting w))) with (old_closes (proxy w)) in Hc.
  destruct (run env (startChildServer config stderrAccess) (restarting w))
    as [wf evs [[]|e]]; cbn [events completion] in *;
    unfold restart_log; rewrite (proj1 (calls_log _ _)), (proj2 (calls_log _ _));
    calls_simpl.
  - split; [exact Hc|]. split; [exact Hn|].
    intros e He. specialize (Hf e He). discriminate.
  - split; [exact Hc|]. split; [exact Hn|].
    intros e' He. specialize (Hf e' He). now injection Hf as ->.
Qed.

(** The calls of a restart, in order: the close of the old client, the close
    of the old transport, the connect of the new client on the new transport
    and, only if that connect was fulfilled, the tool query on the new client
    followed by at most a prefix of the three notifications.  Exactly one
    transport and one client are constructed.  When the connect is rejected
    the call reports that failure and the new child is never queried. *)
Theorem restart_call_order (env : Env) (args : JsVal) (w : World) :
  exists n k,
    let r := run env (handleRestartServer config stderrAccess args) w in
    let connect := fst (env n (ClientConnect (S (heap w)) (heap w))) in
    calls (events r)
    = (old_closes (proxy w)
       ++ ClientConnect (S (heap w)) (heap w)
          :: (if resolved connect
              then ListTools (S (heap w))
                   :: map ServerNotification (firstn k list_changed)
              else []))%list
    /\ constructions (events r)
       = [StdioClientTransport (childCommand config) (childArgs config)
                               (environment config); Client]
    /\ (forall e, connect = Rejected e ->
                  completion r = Returned (restart_failure (error_message e))).
Proof. exact (handleRestartServer_calls env args w). Qed.

(** [start()] connects the upstream server only after the child has started:
    when the start of the child throws, [start()] throws the same error and
    has neither constructed the server transport nor called
    [server.connect]; otherwise the connect of the server is its last call. *)
Theorem start_connects_upstream_last (env : Env) (w : World) :
  let r := run env (startChildServer config stderrAccess) w in
  let s := run env (start config stderrAccess) w in
  ~ In ServerConnect (calls (events r))
  /\ match completion r with
     | Threw e =>
         completion s = Threw e
         /\ calls (events s) = calls (events r)
         /\ constructions (events s) = constructions (events r)
     | Returned _ =>
         calls (events s) = (calls (events r) ++ [ServerConnect])%list
         /\ constructions (events s)
            = (constructions (events r) ++ [StdioServerTransport])%list
     end.
Proof.
  cbv zeta. split.
  - destruct (startChildServer_calls config stderrAccess env w)
      as (n & k & Hc & _).
    cbv zeta in Hc. rewrite Hc. intro H.
    apply in_app_or in H. destruct H as [H|[H|H]]; try discriminate.
    + unfold old_closes in H.
      destruct (childClient (proxy w)), (childTransport (proxy w));
        cbn in H; intuition discriminate.
    + destruct (resolved _); [|contradiction].
      destruct H as [H|H]; [discriminate|].
      apply in_map_iff in H. destruct H as (x & H & _). discriminate.
  - unfold start. cbn. rewrite run_bind. unfold emit.
    destruct (run env (startChildServer config stderrAccess) w)
      as [[p h st t] evs [[]|e]]; unfold and_then; cbn.
    + destruct (env st ServerConnect) as [[v|e] d]; cbn;
        rewrite (proj1 (calls_log _ _)), (proj2 (calls_log _ _));
        calls_simpl; split; reflexivity.
    + rewrite (proj1 (calls_log _ _)), (proj2 (calls_log _ _)).
      repeat split.
Qed.

(** What the probe for the child's stderr finds, or whether it throws, has no
    effect on a start of the child beyond the log: the world it leaves, how
    it completes and the calls it makes are the same. *)
Theorem stderr_probe_is_harmless (stderrAccess' : nat -> StderrAccess)
        (env : Env) (w : World) :
  let r := run env (startChildServer config stderrAccess) w in
  let r' := run env (startChildServer config stderrAccess') w in
  final r = final r'
  /\ completion r = completion r'
  /\ calls (events r) = calls (events r')
  /\ constructions (events r) = constructions (events r').
Proof.
  cbv zeta. unfold startChildServer. rewrite !run_bind.
  destruct (run env stopChildServer w) as [[p1 h1 s1 t1] evs1 [[]|e1]];
    unfold and_then; cbn; [|repeat split].
  destruct (env s1 (ClientConnect (S h1) h1)) as [[vc|ec] dc]; cbn;
    [|repeat split].
  rewrite !run_bind.
  match goal with
  | |- context [run env (captureStderr stderrAccess ?tr) ?w0] =>
      destruct (captureStderr_calls stderrAccess env tr w0) as [Hc Hn];
      destruct (run_captureStderr stderrAccess env tr w0) as (evs & E & _);
      destruct (captureStderr_calls stderrAccess' env tr w0) as [Hc' Hn'];
      destruct (run_captureStderr stderrAccess' env tr w0) as (evs' & E' & _)
  end.
  rewrite E, E' in *. cbn [events] in *. unfold and_then; cbn.
  split; [reflexivity|]. split; [reflexivity|].
  calls_simpl. rewrite Hc, Hc', Hn, Hn'. split; reflexivity.
Qed.

End CallOrder.

(** ** Who sends notifications, and what a restart ignores *)

Lemma attempted_of_calls (evs : list Event) :
  attempted evs
  = flat_map (fun c => match c with
                       | ServerNotification n => [n]
                       | _ => []
                       end) (calls evs).
Proof.
  induction evs as [|ev evs IH]; [reflexivity|].
  destruct ev as [l|o n|c o].
  - exact IH.
  - exact IH.
  - rewrite (proj1 (calls_call c o evs)). cbn [flat_map]. rewrite <- IH.
    destruct c; reflexivity.
Qed.

Section Quiet.

Variable config : ProxyConfig.
Variable stderrAccess : nat -> StderrAccess.

(** Between two method calls the restart flag is down, so [start()] and
    [stop()] never send a list-changed notification: only calls of the
    restart tool do. *)
Theorem only_restarts_notify (env : Env) (w : World) :
  reachable config stderrAccess w ->
  restartInProgress (proxy w) = false
  /\ attempted (events (run env (start config stderrAccess) w)) = []
  /\ attempted (events (run env stop w)) = [].
Proof.
  intro Hr. destruct (reachable_at_rest Hr) as (Hf & _).
  split; [exact Hf|]. split.
  - destruct (run_start config stderrAccess env w) as (_ & -> & _).
    destruct (run_startChildServer config stderrAccess env w)
      as (n1 & n2 & w' & evs & E & _ & _ & (k & j & Ha & _) & _).
    cbv zeta in E, Ha. rewrite E. cbn [events].
    rewrite Ha. destruct (start_outcome _ _); cbn; try reflexivity.
    now rewrite Hf.
  - rewrite attempted_of_calls.
    destruct (isShuttingDown (proxy w)) eqn:Hs.
    + now rewrite run_stop_shutting_down.
    + destruct (stop_calls env w Hs) as [-> _].
      unfold old_closes.
      destruct (childClient (proxy w)), (childTransport (proxy w));
        reflexivity.
Qed.

(** The restart tool does not look at [isShuttingDown]: once [stop()] has
    run, a call still constructs and connects a new child, and as the flag
    stays set a later [stop()] returns without closing that child. *)
Theorem restart_during_shutdown (env env' : Env) (args : JsVal) (w : World) :
  isShuttingDown (proxy w) = true ->
  let r := run env (handleRestartServer config stderrAccess args) w in
  childClient (proxy (final r)) = Some (S (heap w))
  /\ In (ClientConnect (S (heap w)) (heap w)) (calls (events r))
  /\ run env' stop (final r) = mkRun (final r) [] (Returned tt).
Proof.
  intros Hs r. subst r.
  destruct (restart_final_proxy config stderrAccess env args w)
    as (sc & _ & Ec & _ & Ed & _).
  destruct (handleRestartServer_calls config stderrAccess env args w)
    as (n & k & Hc & _).
  cbv zeta in *. split; [exact Ec|]. split.
  - rewrite Hc. apply in_or_app. right. left. reflexivity.
  - apply run_stop_shutting_down. now rewrite Ed.
Qed.

End Quiet.

(** Witness: a second [start()] and a [stop()] of the connected proxy. *)
Lemma only_restarts_notify_witness :
  reachable Session.config Session.stderrAccess Session.w_connected
  /\ restartInProgress (proxy Session.w_connected) = false
  /\ attempted (events (run Session.env_ok
                            (start Session.config Session.stderrAccess)
                            Session.w_connected)) = []
  /\ attempted (events (run Session.env_ok stop Session.w_connected)) = [].
Proof.
  split; [exact w_connected_reachable|].
  exact (@only_restarts_notify Session.config Session.stderrAccess
           Session.env_ok Session.w_connected w_connected_reachable).
Defined.

(** Witness: a restart of the proxy of the session after [stop()]. *)
Lemma restart_during_shutdown_witness :
  isShuttingDown (proxy w_stopped) = true
  /\ childClient
       (proxy (final (run Session.env_ok
                          (handleRestartServer Session.config
                             Session.stderrAccess JUndefined) w_stopped)))
     = Some (S (heap w_stopped))
  /\ In (ClientConnect (S (heap w_stopped)) (heap w_stopped))
        (calls (events (run Session.env_ok
                            (handleRestartServer Session.config
                               Session.stderrAccess JUndefined) w_stopped)))
  /\ run Session.env_ok stop
         (final (run Session.env_ok
                     (handleRestartServer Session.config
                        Session.stderrAccess JUndefined) w_stopped))
     = mkRun (final (run Session.env_ok
                         (handleRestartServer Session.config
                            Session.stderrAccess JUndefined) w_stopped))
             [] (Returned tt).
Proof.
  split; [reflexivity|].
  exact (@restart_during_shutdown Session.config Session.stderrAccess
           Session.env_ok Session.env_ok JUndefined w_stopped eq_refl).
Defined.

(** * The command line *)

Lemma includes_In (x : string) (l : list string) :
  includes x l = true <-> In x l.
Proof.
  unfold includes. rewrite existsb_exists. split.
  - intros (y & Hy & E). apply String.eqb_eq in E. now subst.
  - intros H. exists x. split; [assumption | apply String.eqb_refl].
Qed.

Lemma includes_false (x : string) (l : list string) :
  includes x l = false <-> ~ In x l.
Proof.
  rewrite <- includes_In. destruct (includes x l); split; congruence.
Qed.

Lemma indexOf_range (x : string) (l : list string) :
  (-1 <= indexOf x l < Z.of_nat (length l))%Z.
Proof.
  induction l as [|y l IH]; [simpl; lia|].
  cbn [indexOf length]. destruct (String.eqb y x); [lia|].
  destruct (Z.eqb_spec (indexOf x l) (-1)); lia.
Qed.

Lemma indexOf_absent (x : string) (l : list string) :
  indexOf x l = (-1)%Z <-> ~ In x l.
Proof.
  induction l as [|y l IH]; [simpl; tauto|].
  cbn [indexOf In]. destruct (String.eqb_spec y x) as [E|E].
  - split; [discriminate | intros H; elim H; now left].
  - pose proof (indexOf_range x l).
    destruct (Z.eqb_spec (indexOf x l) (-1)) as [E1|E1].
    + split; [|reflexivity]. intros _ [H1|H1]; [congruence | tauto].
    + split; [lia|]. intros H1. elim E1. apply IH. tauto.
Qed.

Lemma length_splice_proxy (argv : list string) :
  length (splice_proxy argv) = S (length argv).
Proof.
  destruct argv as [|a [|b l]]; reflexivity.
Qed.

Section EntryPointFacts.

Variable parse : list string -> ParseResult.

Lemma runCLI_parsing (argv : list string) :
  2 < length argv ->
  exists argv',
    runCLI parse argv = parsing parse argv'
    /\ (argv' = argv \/ argv' = splice_proxy argv)
    /\ (nth 2 argv "" = "proxy" -> argv' = argv)
    /\ 2 < length argv'
    /\ (In "--" argv' -> In (nth 2 argv' "") ["proxy"; "inspect"; "info"]).
Proof.
  intros Hlen. unfold runCLI.
  set (valid := Nat.ltb 2 (length argv)
                && includes (nth 2 argv "") ["proxy"; "inspect"; "info"]).
  set (argv' := if negb valid && negb (indexOf "--" argv =? -1)%Z
                then splice_proxy argv else argv).
  assert (Hl' : 2 < length argv').
  { subst argv'. destruct (negb valid && _); [rewrite length_splice_proxy|]; lia. }
  exists argv'. split; [|split; [|split; [|split]]].
  - unfold parsing. destruct (parse argv'); try reflexivity.
    destruct (Nat.eqb_spec (length argv') 2); [lia | reflexivity].
  - subst argv'. destruct (negb valid && _); tauto.
  - intros Hp. subst argv' valid. rewrite Hp.
    destruct (Nat.ltb_spec 2 (length argv)); [reflexivity | lia].
  - exact Hl'.
  - subst argv'. destruct valid eqn:Hv; cbn [negb andb].
    + intros _. apply andb_prop in Hv. apply includes_In, Hv.
    + destruct (Z.eqb_spec (indexOf "--" argv) (-1)) as [E|E]; cbn [negb].
      * intros Hin. apply indexOf_absent in E. tauto.
      * intros _. destruct argv as [|a [|b l]]; cbn [length] in Hlen; try lia.
        left. reflexivity.
Qed.

Lemma main_parsing (argv : list string) :
  main parse argv = usage_error
  \/ exists argv',
       main parse argv = parsing parse argv'
       /\ (argv' = argv \/ argv' = splice_proxy argv)
       /\ 2 < length argv'
       /\ (In "--" argv' -> In (nth 2 argv' "") ["proxy"; "inspect"; "info"]).
Proof.
  unfold main. destruct (shouldRunCLI argv) eqn:Hcli.
  - right. assert (Hlen : 2 < length argv).
    { unfold shouldRunCLI in Hcli.
      destruct argv as [|a [|b [|c l]]]; cbn in Hcli; try discriminate.
      cbn [length]. lia. }
    destruct (@runCLI_parsing argv Hlen) as (argv' & H1 & H2 & _ & H3 & H4).
    exists argv'. tauto.
  - unfold runMCPServer. pose proof (indexOf_range "--" argv) as Hr.
    destruct (Z.eqb_spec (indexOf "--" argv) (-1)) as [E|E]; cbn [orb];
      [now left|].
    destruct (Z.leb_spec (Z.of_nat (length argv) - 1) (indexOf "--" argv))
      as [E1|E1]; [now left|].
    right. assert (Hlen : 2 <= length argv) by lia.
    assert (Hl' : 2 < length (splice_proxy argv))
      by (rewrite length_splice_proxy; lia).
    destruct (@runCLI_parsing _ Hl') as (argv' & H1 & _ & H2 & H3 & H4).
    assert (argv' = splice_proxy argv) as ->.
    { apply H2. destruct argv as [|a [|b l]]; cbn [length] in Hlen; try lia.
      reflexivity. }
    exists (splice_proxy argv). tauto.
Qed.

End EntryPointFacts.

Lemma indexOf_skipn2 (x : string) (argv : list string) :
  ~ In x (firstn 2 argv) ->
  skipn 2 argv <> [] ->
  indexOf x argv
  = (if (indexOf x (skipn 2 argv) =? -1)%Z then (-1)%Z
     else indexOf x (skipn 2 argv) + 2)%Z.
Proof.
  intros Hn Hs. destruct argv as [|a [|b l]]; try (now elim Hs).
  cbn [firstn In skipn] in *. cbn [indexOf].
  destruct (String.eqb_spec a x) as [E|E]; [tauto|].
  destruct (String.eqb_spec b x) as [E'|E']; [tauto|].
  pose proof (indexOf_range x l).
  destruct (Z.eqb_spec (indexOf x l) (-1)) as [E1|E1]; [reflexivity|].
  destruct (Z.eqb_spec (indexOf x l + 1) (-1)); lia.
Qed.

Lemma shouldRunCLI_false (argv : list string) :
  shouldRunCLI argv = false <->
  skipn 2 argv = []
  \/ (In "--" (skipn 2 argv)
      /\ ~ In (nth 0 (skipn 2 argv) "") ["proxy"; "inspect"; "info"; "help"]
      /\ forall arg, In arg (skipn 2 argv) ->
                     ~ In arg ["--help"; "-h"; "--version"; "-V"]).
Proof.
  unfold shouldRunCLI. destruct (skipn 2 argv) as [|a l] eqn:Ha.
  - cbn. tauto.
  - cbn [length Nat.eqb].
    destruct (includes (nth 0 (a :: l) "") _) eqn:H1.
    { apply includes_In in H1. split; [discriminate|].
      intros [H|(_ & H & _)]; [discriminate | tauto]. }
    apply includes_false in H1.
    destruct (existsb _ (a :: l)) eqn:H2.
    { apply existsb_exists in H2. destruct H2 as (f & Hf & Hf').
      apply includes_In in Hf'. split; [discriminate|].
      intros [H|(_ & _ & H)]; [discriminate | elim (H f Hf Hf')]. }
    assert (H2' : forall arg, In arg (a :: l) ->
                    ~ In arg ["--help"; "-h"; "--version"; "-V"]).
    { intros f Hf Hf'. apply includes_In in Hf'.
      assert (existsb (fun arg => includes arg ["--help"; "-h"; "--version"; "-V"])
                      (a :: l) = true)
        by (apply existsb_exists; eauto).
      congruence. }
    destruct (includes "--" (a :: l)) eqn:H3.
    { apply includes_In in H3. split; [|reflexivity]. intros _. tauto. }
    apply includes_false in H3. cbn [Nat.ltb Nat.leb]. split; [discriminate|].
    intros [H|(H & _)]; [discriminate | tauto].
Qed.

(** [shouldRunCLI] chooses the server mode exactly when there is no argument,
    or when the arguments hold a [--], do not begin with a subcommand name and
    hold none of the help and version flags.  So the closing
    [args.length > 0] never answers [false], and a help or version flag
    selects the CLI mode wherever it stands, also among the arguments meant
    for the child after [--]. *)
Theorem server_mode_iff (argv : list string) :
  shouldRunCLI argv = false <->
  skipn 2 argv = []
  \/ (In "--" (skipn 2 argv)
      /\ ~ In (nth 0 (skipn 2 argv) "") ["proxy"; "inspect"; "info"; "help"]
      /\ forall arg, In arg (skipn 2 argv) ->
                     ~ In arg ["--help"; "-h"; "--version"; "-V"]).
Proof. exact (shouldRunCLI_false argv). Qed.

(** [main] either writes the usage error or hands the arguments to commander
    exactly once, as they came or with one ["proxy"] inserted at index 2,
    never with two; whenever the arguments handed over hold a [--], index 2
    is a subcommand name.  It never reaches the [program.help()] of
    [runCLI]: the arguments handed over are always more than two. *)
Theorem main_parses_once (parse : list string -> ParseResult)
    (argv : list string) :
  ~ In ProgramHelp (main parse argv)
  /\ (main parse argv = usage_error
      \/ exists argv',
           main parse argv = parsing parse argv'
           /\ (argv' = argv \/ argv' = splice_proxy argv)
           /\ (In "--" argv' ->
               In (nth 2 argv' "") ["proxy"; "inspect"; "info"])).
Proof.
  destruct (main_parsing parse argv) as [E|(argv' & E & H1 & H2 & H3)].
  - split; [|now left]. rewrite E. cbn. intuition discriminate.
  - split; [|right; exists argv'; tauto]. rewrite E. unfold parsing.
    destruct (parse argv'); cbn; intuition discriminate.
Qed.

(** With no [--] in the first two entries of [process.argv] (the paths of
    node and of the script), [main] ends in the usage error exactly when
    there is no argument, or when the server mode was chosen and the first
    [--] is the last argument, so that no child command follows it. *)
Theorem usage_error_iff (parse : list string -> ParseResult)
    (argv : list string) :
  ~ In "--" (firstn 2 argv) ->
  (main parse argv = usage_error <->
   skipn 2 argv = []
   \/ (shouldRunCLI argv = false
       /\ indexOf "--" (skipn 2 argv)
          = (Z.of_nat (length (skipn 2 argv)) - 1)%Z)).
Proof.
  intros Hn.
  assert (Hparse : forall argv', parsing parse argv' <> usage_error)
    by (intros argv'; unfold parsing, usage_error; discriminate).
  destruct (shouldRunCLI argv) eqn:Hcli.
  - split.
    + intros E. destruct (main_parsing parse argv) as [E'|(argv' & E' & _)].
      * unfold main in E'. rewrite Hcli in E'. unfold runCLI in E'.
        destruct (parse _); [destruct (Nat.eqb _ 2)| |]; discriminate.
      * rewrite E' in E. elim (Hparse _ E).
    + intros [H|[H _]]; [|discriminate].
      unfold shouldRunCLI in Hcli. rewrite H in Hcli. discriminate.
  - unfold main. rewrite Hcli. unfold runMCPServer.
    destruct (skipn 2 argv) as [|a l] eqn:Ha.
    + assert (Hnot : ~ In "--" argv).
      { rewrite <- (firstn_skipn 2 argv), Ha, app_nil_r. exact Hn. }
      apply indexOf_absent in Hnot. rewrite Hnot. cbn. tauto.
    + assert (Hs : skipn 2 argv <> []) by (rewrite Ha; discriminate).
      rewrite (@indexOf_skipn2 _ _ Hn Hs), Ha.
      assert (Hin : In "--" (a :: l)).
      { apply shouldRunCLI_false in Hcli. rewrite Ha in Hcli.
        destruct Hcli as [H|[H _]]; [discriminate | exact H]. }
      assert (Hlen : length argv = 2 + length (a :: l)).
      { rewrite <- (firstn_skipn 2 argv) at 1. rewrite length_app, Ha.
        f_equal. destruct argv as [|x [|y t]]; try discriminate. reflexivity. }
      pose proof (indexOf_range "--" (a :: l)) as Hr.
      destruct (Z.eqb_spec (indexOf "--" (a :: l)) (-1)) as [E|E].
      { apply indexOf_absent in E. tauto. }
      cbn [orb]. destruct (Z.eqb_spec (indexOf "--" (a :: l) + 2) (-1)); [lia|].
      cbn [orb].
      destruct (Z.leb_spec (Z.of_nat (length argv) - 1)
                           (indexOf "--" (a :: l) + 2)) as [E1|E1].
      * split; [|reflexivity]. intros _. right. split; [reflexivity|].
        rewrite Hlen in E1. lia.
      * split.
        -- intros E2. exfalso.
           assert (Hl' : 2 < length (splice_proxy argv))
             by (rewrite length_splice_proxy; lia).
           destruct (@runCLI_parsing parse _ Hl') as (argv' & E' & _).
           rewrite E' in E2. elim (Hparse _ E2).
        -- intros [H|[_ H]]; [discriminate|]. rewrite Hlen in E1. lia.
Qed.

(** Witness: [reloaderoo foo --] is answered with the usage error. *)
Lemma usage_error_iff_witness :
  ~ In "--" (firstn 2 ["node"; "reloaderoo"; "foo"; "--"])
  /\ (main (fun _ => Parsed) ["node"; "reloaderoo"; "foo"; "--"] = usage_error
      <-> skipn 2 ["node"; "reloaderoo"; "foo"; "--"] = []
          \/ (shouldRunCLI ["node"; "reloaderoo"; "foo"; "--"] = false
              /\ indexOf "--" (skipn 2 ["node"; "reloaderoo"; "foo"; "--"])
                 = (Z.of_nat (length (skipn 2 ["node"; "reloaderoo"; "foo"; "--"]))
                    - 1)%Z)).
Proof.
  assert (H : ~ In "--" (firstn 2 ["node"; "reloaderoo"; "foo"; "--"]))
    by (cbn; intuition discriminate).
  split; [exact H|].
  exact (@usage_error_iff (fun _ => Parsed)
           ["node"; "reloaderoo"; "foo"; "--"] H).
Defined.

(** * The version shown by the command line *)

Section VersionFacts.

Variable currentDir : JsError + string.
Variable resolve : string -> string -> string.
Variable readJson : string -> option JsVal.

Lemma version_at_truthy (p : string) (v : JsVal) :
  version_at readJson p = Some v -> truthy v = true.
Proof.
  unfold version_at. destruct (readJson p) as [data|]; [|discriminate].
  destruct (truthy (opt_get data "version")) eqn:Ht; [|discriminate].
  intros [= <-]. exact Ht.
Qed.

Lemma first_version_some (paths : list string) (v : JsVal) :
  first_version readJson paths = Some v ->
  exists before p after,
    paths = (before ++ p :: after)%list
    /\ Forall (fun q => version_at readJson q = None) before
    /\ version_at readJson p = Some v.
Proof.
  induction paths as [|p paths IH]; cbn [first_version]; [discriminate|].
  destruct (version_at readJson p) as [v'|] eqn:Hp.
  - intros [= <-]. exists [], p, paths. repeat split; [constructor | exact Hp].
  - intros H. destruct (IH H) as (before & q & after & -> & Hb & Hq).
    exists (p :: before), q, after. repeat split; [|exact Hq].
    constructor; assumption.
Qed.

Lemma first_version_none (paths : list string) :
  first_version readJson paths = None ->
  Forall (fun q => version_at readJson q = None) paths.
Proof.
  induction paths as [|p paths IH]; cbn [first_version]; [constructor|].
  destruct (version_at readJson p) eqn:Hp; [discriminate|].
  intros H. constructor; [exact Hp | exact (IH H)].
Qed.

(** [getVersion] never answers with a falsy value.  Either it writes nothing
    and answers with the [version] of the first of the three files, in the
    order tried, that can be read and parsed and has a truthy [version]
    (files before it that fail or lack one are passed over in silence); or
    it writes exactly one warning and answers ["0.0.0"], and then no file had
    a version, if the directory could be computed at all. *)
Theorem getVersion_result :
  let r := getVersion currentDir resolve readJson in
  truthy (snd r) = true
  /\ ((fst r = []
       /\ exists dir before p after,
            currentDir = inr dir
            /\ possiblePaths resolve dir = (before ++ p :: after)%list
            /\ Forall (fun q => version_at readJson q = None) before
            /\ version_at readJson p = Some (snd r))
      \/ (length (fst r) = 1
          /\ snd r = JStr "0.0.0"
          /\ forall dir, currentDir = inr dir ->
               Forall (fun q => version_at readJson q = None)
                      (possiblePaths resolve dir))).
Proof.
  unfold getVersion. destruct currentDir as [e|dir].
  - split; [reflexivity|]. right. repeat split. intros dir [=].
  - destruct (first_version readJson (possiblePaths resolve dir)) as [v|] eqn:Hv.
    + destruct (first_version_some _ Hv) as (before & p & after & E & Hb & Hp).
      split; [exact (version_at_truthy _ Hp)|]. left.
      split; [reflexivity|]. exists dir, before, p, after. auto.
    + split; [reflexivity|]. right. repeat split.
      intros dir' [= <-]. exact (first_version_none _ Hv).
Qed.

End VersionFacts.

(** * The name of the proxy server *)

Lemma split_not_nil (s : string) : split s <> [].
Proof.
  induction s as [|c s IH]; cbn [split]; [discriminate|].
  destruct (is_separator c); [discriminate|].
  destruct (split s); [congruence | discriminate].
Qed.

Lemma split_app_separator (d f : string) (sep : Ascii.ascii) :
  is_separator sep = true ->
  split (d ++ String sep f) = (split d ++ split f)%list.
Proof.
  intros Hsep. induction d as [|c d IH]; cbn [append split app].
  - rewrite Hsep. reflexivity.
  - rewrite IH. destruct (is_separator c); [reflexivity|].
    pose proof (split_not_nil d) as Hd.
    destruct (split d) as [|p ps]; [congruence | reflexivity].
Qed.

Lemma split_separator_free (f : string) :
  separator_free f -> split f = [f].
Proof.
  induction f as [|c f IH]; intros Hf; cbn [split]; [reflexivity|].
  rewrite (Hf c) by (left; reflexivity).
  rewrite IH; [reflexivity|]. intros c' Hc'. apply Hf. right. exact Hc'.
Qed.

Lemma split_parts_separator_free (s : string) :
  Forall separator_free (split s).
Proof.
  induction s as [|c s IH]; cbn [split].
  - constructor; [intros c [] | constructor].
  - destruct (is_separator c) eqn:Hc.
    + constructor; [intros c' [] | exact IH].
    + destruct (split s) as [|p ps]; inversion IH; subst.
      * constructor; [|constructor]. intros c' [<-|[]]. exact Hc.
      * constructor; [|assumption]. intros c' [<-|Hc']; [exact Hc | auto].
Qed.

Lemma nth_last_app (l : list string) (x : string) :
  nth (length (l ++ [x]) - 1) (l ++ [x])%list "" = x.
Proof.
  rewrite length_app. cbn [length].
  replace (length l + 1 - 1) with (length l) by lia.
  rewrite app_nth2 by lia. rewrite Nat.sub_diag. reflexivity.
Qed.

Lemma string_length_app (a b : string) :
  String.length (a ++ b) = String.length a + String.length b.
Proof. induction a as [|c a IH]; cbn; [reflexivity | now rewrite IH]. Qed.

Lemma extension_length (s : string) :
  includes s extensions = true -> String.length s = 3.
Proof.
  intros H. apply includes_In in H. cbn in H.
  destruct H as [<-|[<-|[<-|[<-|[<-|[]]]]]]; reflexivity.
Qed.

Lemma strip_extension_app (base ext : string) :
  In ext extensions -> strip_extension (base ++ ext) = base.
Proof.
  intros Hext. induction base as [|c base IH].
  - cbn in Hext. destruct Hext as [<-|[<-|[<-|[<-|[<-|[]]]]]]; reflexivity.
  - cbn [append strip_extension].
    destruct (includes (String c (base ++ ext)) extensions) eqn:Hi.
    + apply extension_length in Hi. cbn [String.length] in Hi.
      rewrite string_length_app in Hi.
      assert (String.length ext = 3)
        by (apply extension_length, includes_In, Hext).
      lia.
    + rewrite IH. reflexivity.
Qed.

Lemma strip_extension_chars (s : string) (c : Ascii.ascii) :
  In c (list_ascii_of_string (strip_extension s)) ->
  In c (list_ascii_of_string s).
Proof.
  induction s as [|a s IH]; cbn [strip_extension].
  - destruct (includes "" extensions); exact (fun H => H).
  - destruct (includes (String a s) extensions); [intros []|].
    cbn [list_ascii_of_string In]. tauto.
Qed.

Lemma str_or_not_empty (a b : string) : b <> "" -> str_or a b <> "".
Proof.
  intros Hb. unfold str_or. destruct (String.eqb_spec a ""); assumption.
Qed.

Lemma str_or_separator_free (a b : string) :
  separator_free a -> separator_free b -> separator_free (str_or a b).
Proof. intros Ha Hb. unfold str_or. destruct (String.eqb a ""); assumption. Qed.

Lemma default_name_separator_free : separator_free "mcp-server".
Proof.
  intros c Hc. cbn in Hc.
  repeat (destruct Hc as [<-|Hc]; [reflexivity|]). destruct Hc.
Qed.

Lemma nth_separator_free (l : list string) (n : nat) :
  Forall separator_free l -> separator_free (nth n l "").
Proof.
  intros Hl. destruct (Nat.lt_ge_cases n (length l)) as [H|H].
  - rewrite Forall_forall in Hl. apply Hl, nth_In, H.
  - rewrite nth_overflow by exact H. intros c [].
Qed.

(** The name is never empty and never holds a path separator, whatever the
    child command: every way to an empty name ends in ["mcp-server"], and the
    name is cut out of the piece after the last [/] or [\]. *)
Theorem extractServerName_bare (config : ProxyConfig) :
  extractServerName config <> "" /\ separator_free (extractServerName config).
Proof.
  unfold extractServerName.
  destruct (String.eqb (childCommand config) "").
  - split; [discriminate | exact default_name_separator_free].
  - split; [apply str_or_not_empty; discriminate|].
    apply str_or_separator_free; [|exact default_name_separator_free].
    intros c Hc. apply strip_extension_chars in Hc. revert c Hc.
    apply str_or_separator_free; [|exact default_name_separator_free].
    apply nth_separator_free, split_parts_separator_free.
Qed.

(** Only the file name counts, and of it one extension is cut: for a child
    command [dir/base.ext], with [base] not empty and free of separators and
    [.ext] one of the five extensions, the name is [base], whatever the
    directory, and also when [base] itself ends in an extension. *)
Theorem extractServerName_basename (config : ProxyConfig)
    (dir base ext : string) (sep : Ascii.ascii) :
  is_separator sep = true ->
  separator_free base ->
  base <> "" ->
  In ext extensions ->
  childCommand config = dir ++ String sep (base ++ ext) ->
  extractServerName config = base.
Proof.
  intros Hsep Hbase Hne Hext Hcmd. unfold extractServerName. rewrite Hcmd.
  assert (Hfile : separator_free (base ++ ext)).
  { intros c Hc.
    assert (Hc' : In c (list_ascii_of_string base ++ list_ascii_of_string ext)%list).
    { clear -Hc. induction base as [|a b IH]; cbn in *; [assumption|].
      destruct Hc as [->|Hc]; [now left | right; auto]. }
    apply in_app_or in Hc'. destruct Hc' as [Hc'|Hc']; [auto|].
    cbn in Hext.
    destruct Hext as [<-|[<-|[<-|[<-|[<-|[]]]]]]; cbn in Hc';
      repeat (destruct Hc' as [<-|Hc']; [reflexivity|]); destruct Hc'. }
  destruct (String.eqb_spec (dir ++ String sep (base ++ ext)) "") as [E|_].
  { destruct dir; discriminate. }
  rewrite (@split_app_separator dir (base ++ ext) sep Hsep).
  rewrite (@split_separator_free _ Hfile), nth_last_app.
  assert (Hne' : base ++ ext <> "").
  { destruct base; [congruence | discriminate]. }
  unfold str_or at 2. destruct (String.eqb_spec (base ++ ext) ""); [tauto|].
  rewrite (@strip_extension_app base ext Hext).
  unfold str_or. destruct (String.eqb_spec base ""); [tauto | reflexivity].
Qed.

(** Witness: [/usr/local/bin/echo-server.js] gives [echo-server]. *)
Lemma extractServerName_basename_witness :
  is_separator "/"%char = true
  /\ separator_free "echo-server"
  /\ "echo-server" <> ""
  /\ In ".js" extensions
  /\ childCommand (mkConfig "/usr/local/bin/echo-server.js" [] [] "." true
                             3 1000 30000)
     = "/usr/local/bin" ++ String "/"%char ("echo-server" ++ ".js")
  /\ extractServerName (mkConfig "/usr/local/bin/echo-server.js" [] [] "."
                                  true 3 1000 30000)
     = "echo-server".
Proof.
  assert (H2 : separator_free "echo-server").
  { intros c Hc. cbn in Hc.
    repeat (destruct Hc as [<-|Hc]; [reflexivity|]). destruct Hc. }
  assert (H3 : "echo-server" <> "") by discriminate.
  assert (H4 : In ".js" extensions) by (left; reflexivity).
  split; [reflexivity|]. split; [exact H2|]. split; [exact H3|].
  split; [exact H4|]. split; [reflexivity|].
  exact (@extractServerName_basename
           (mkConfig "/usr/local/bin/echo-server.js" [] [] "." true
                     3 1000 30000)
           "/usr/local/bin" "echo-server" ".js" "/"%char
           eq_refl H2 H3 H4 eq_refl).
Defined.
